(** * ChatTTS-Forge: the segment batch generator and the web-UI seed path

    A shallow embedding of
    - [modules/core/models/tts/ChatTtsModel.py] (class [ChatTTSModel]:
      [get_infer], [interrupt], [get_ref_wav], [generate_batch_base] and the
      two generators it returns), and
    - [modules/webui/webui_utils.py] (the seed handling of [tts_generate]).

    Python objects that are mutated in place (the lists of
    (sample-rate, samples) pairs) live in an object store and are passed
    around by address, so that a list that is yielded and later updated is
    one object.  Exceptions are explicit results. *)

From Stdlib Require Import ZArith NArith QArith Qround List String Ascii Lia.
From Stdlib Require Import Sorted Permutation.
From stdpp Require Import base list strings.
Import ListNotations.

Local Open Scope Z_scope.

(** ** Python strings *)

Module PyStr.

(** A Python [str] is a sequence of Unicode code points. *)
Abbreviation pystr := (list N).

(** A literal written with ASCII characters only. *)
Definition lit (s : string) : pystr :=
  List.map N_of_ascii (list_ascii_of_string s).

(** [str.isspace] for one character: the code points CPython's
    [_PyUnicode_IsWhitespace] accepts. *)
Definition isspace (c : N) : bool :=
  ((9 <=? c) && (c <=? 13) || (28 <=? c) && (c <=? 32)
   || (c =? 133) || (c =? 160) || (c =? 5760)
   || (8192 <=? c) && (c <=? 8202)
   || (c =? 8232) || (c =? 8233) || (c =? 8239) || (c =? 8287)
   || (c =? 12288))%N.

Fixpoint lstrip (s : pystr) : pystr :=
  match s with
  | c :: s' => if isspace c then lstrip s' else s
  | [] => []
  end.

Definition rstrip (s : pystr) : pystr := rev (lstrip (rev s)).

(** [s.strip()] *)
Definition strip (s : pystr) : pystr := rstrip (lstrip s).

(** Truth value of a string: non-empty. *)
Definition truthy (s : pystr) : bool :=
  match s with [] => false | _ :: _ => true end.

Fixpoint eqb (s t : pystr) : bool :=
  match s, t with
  | [], [] => true
  | c :: s', d :: t' => (c =? d)%N && eqb s' t'
  | _, _ => false
  end.

(** [s.endswith(suf)] *)
Definition endswith (s suf : pystr) : bool :=
  (length suf <=? length s)%nat
  && eqb (drop (length s - length suf)%nat s) suf.

End PyStr.
Import PyStr.

(** ** Exceptions and results *)

(** The exceptions of the program: built-in ones by class, numpy's
    [UFuncTypeError], [gr.Error] with its message, and an exception of
    another module by the name of its class. *)
Inductive PyExc :=
| IndexError
| AttributeError
| ValueError
| OverflowError
| UFuncTypeError
| GrError (msg : string)
| PyError (name : string).

Inductive Res (A : Type) :=
| Ok (a : A)
| Raise (e : PyExc).
Arguments Ok {A} a.
Arguments Raise {A} e.

Definition res_bind {A B} (r : Res A) (k : A -> Res B) : Res B :=
  match r with Ok a => k a | Raise e => Raise e end.

(** A list comprehension whose element expression can raise: the first
    exception aborts the whole comprehension. *)
Fixpoint res_map {A B} (f : A -> Res B) (l : list A) : Res (list B) :=
  match l with
  | [] => Ok []
  | x :: l' =>
      res_bind (f x) (fun y => res_bind (res_map f l') (fun ys => Ok (y :: ys)))
  end.

(** ** Data model *)

(** The inference configuration; [stream_chunk_size] is the only field
    [ChatTTSModel] reads, [seed] the one [tts_generate] clamps. *)
Record InferConfig := {
  batch_size : Z;
  spliter_threshold : Z;
  eos : pystr;
  seed : Z;
  stream_chunk_size : Z
}.

Record TTSPipelineContext := { infer_config : InferConfig }.

(** The sentence-terminal mark the generator appends: U+3002. *)
Definition full_stop : pystr := [12290%N].

Definition prompt_prefix : pystr := lit "[Ptts][Ptts][Ptts] ".
Definition prompt_suffix : pystr := lit " [Stts][Ptts][Stts][Ptts][Stts]".

(** The backend's fixed output sample rate. *)
Definition sr : Z := 24000.

Section ChatTtsModel.

(** Opaque data of the collaborators: audio samples, Python floats that
    are only passed through, speaker embeddings (tensors), encoded
    speaker samples, raw audio bytes, and the result cache. *)
Context {Sample Float SpkEmb SpkSmp AudioBytes CacheStore : Type}.

(** A speaker's reference audio with its transcript. *)
Record DcSpkReference := {
  ref_emotion : pystr;
  wav : AudioBytes;
  wav_sr : Z;
  ref_text : pystr
}.

(** The speaker object, through the one method the generator calls:
    [get_ref(predicate)]. *)
Record TTSSpeaker := {
  get_ref : (DcSpkReference -> bool) -> option DcSpkReference
}.

(** Modelled from the spec: the declaration of [TTSSegment] is missing;
    the fields are those [generate_batch_base] reads, and the two sampling
    parameters the spec's data model adds (repetition penalty, max
    tokens), which the source names in comments only. *)
Record TTSSegment := {
  text : pystr;
  spk : option TTSSpeaker;
  emotion : pystr;
  top_p : Float;
  top_k : Z;
  temperature : Float;
  repetition_penalty : Float;
  max_new_token : Z;
  prompt1 : pystr;
  prompt2 : pystr;
  prefix : pystr;
  infer_seed : Z
}.

(** Values of keyword arguments, and a call's keyword arguments in the
    order they are written. *)
Inductive PyArg :=
| ATexts (l : list pystr)
| AEmb (e : option SpkEmb)
| ASmp (s : option SpkSmp)
| AOptStr (s : option pystr)
| AStr (s : pystr)
| AFloat (f : Float)
| AInt (z : Z).

Fixpoint kw_get (k : string) (kw : list (string * PyArg)) : option PyArg :=
  match kw with
  | [] => None
  | (k', v) :: kw' => if String.eqb k k' then Some v else kw_get k kw'
  end.

(** The collaborators that are not part of [ChatTTSModel]: the cache of
    the base class, the speaker-embedding lookup of the base class, the
    audio utilities, and the inference backend [ChatTTSInfer].  A backend
    result is [None] (failure) or a channels-by-samples array; the
    streaming entry point is the finite sequence of partial batches it
    yields.  Both depend on the seed of the enclosing [SeedContext]. *)
Record Collaborators := {
  get_cache : CacheStore -> list TTSSegment -> TTSPipelineContext -> option nat;
  set_cache : CacheStore -> list TTSSegment -> TTSPipelineContext ->
              option nat -> CacheStore;
  get_spk_emb : TTSSegment -> TTSPipelineContext -> option SpkEmb;
  bytes_to_librosa_array : AudioBytes -> Z -> list Sample;
  normalize_audio : Z * list Sample -> Z -> Z * list Sample;
  sample_audio_speaker : list Sample -> SpkSmp;
  generate_audio : Z -> list (string * PyArg) -> list (option (list (list Sample)));
  generate_audio_stream :
    Z -> list (string * PyArg) -> list (list (option (list (list Sample))))
}.

Variable E : Collaborators.

(** Calls that reach the backend, in the order they happen. *)
Inductive Call :=
| CLoad
| CNewInfer (infer : nat)
| CSampleAudioSpeaker (infer : nat) (w : list Sample)
| CGenerateAudio (infer : nat) (seed : Z) (kw : list (string * PyArg))
| CGenerateAudioStream (infer : nat) (seed : Z) (kw : list (string * PyArg))
| CInterrupt (infer : nat).

(** The state: the store of list objects (a list of (sample-rate,
    samples) pairs at each address), the cache, the fields [chat] and
    [current_infer] of the model object, the number of backends created,
    and the call log. *)
Record World := {
  heap : list (list (Z * list Sample));
  cache : CacheStore;
  chat : bool;
  current_infer : option nat;
  infers : nat;
  calls : list Call
}.

Definition M (A : Type) : Type := World -> World * Res A.

Definition ret {A} (a : A) : M A := fun w => (w, Ok a).
Definition raise {A} (e : PyExc) : M A := fun w => (w, Raise e).
Definition bind {A B} (c : M A) (k : A -> M B) : M B :=
  fun w => match c w with
           | (w', Ok a) => k a w'
           | (w', Raise e) => (w', Raise e)
           end.
Definition lift {A} (r : Res A) : M A := fun w => (w, r).


Local Notation "x <- c ;; k" := (bind c (fun x => k))
  (at level 100, c at next level, right associativity).
Local Notation "c ;;; k" := (bind c (fun _ => k))
  (at level 100, right associativity).

(** *** Primitive effects *)

Definition log (c : Call) : M unit := fun w =>
  ({| heap := heap w; cache := cache w; chat := chat w;
      current_infer := current_infer w; infers := infers w;
      calls := calls w ++ [c] |}, Ok tt).

(** A new list object; its address is returned. *)
Definition alloc (l : list (Z * list Sample)) : M nat := fun w =>
  ({| heap := heap w ++ [l]; cache := cache w; chat := chat w;
      current_infer := current_infer w; infers := infers w;
      calls := calls w |}, Ok (length (heap w))).

(** The content of the list object at an address. *)
Definition deref (w : World) (a : nat) : list (Z * list Sample) :=
  default [] (heap w !! a).

Definition read_list (a : nat) : M (list (Z * list Sample)) := fun w =>
  (w, Ok (deref w a)).

Definition write_list (a : nat) (l : list (Z * list Sample)) : M unit :=
  fun w =>
  ({| heap := <[a := l]> (heap w); cache := cache w; chat := chat w;
      current_infer := current_infer w; infers := infers w;
      calls := calls w |}, Ok tt).

(** [l[i]] *)
Definition getitem {A} (l : list A) (i : nat) : Res A :=
  match l !! i with
  | Some x => Ok x
  | None => Raise IndexError
  end.

(** [self.get_cache(segments=..., context=...)] *)
Definition cache_get (segments : list TTSSegment) (context : TTSPipelineContext)
  : M (option nat) := fun w =>
  (w, Ok (get_cache E (cache w) segments context)).

(** [self.set_cache(segments=..., context=..., value=...)] *)
Definition cache_set (segments : list TTSSegment) (context : TTSPipelineContext)
    (value : option nat) : M unit := fun w =>
  ({| heap := heap w;
      cache := set_cache E (cache w) segments context value;
      chat := chat w; current_infer := current_infer w;
      infers := infers w; calls := calls w |}, Ok tt).

(** *** The model object *)

Definition is_loaded (w : World) : bool := chat w.

Definition load : M unit := fun w =>
  ({| heap := heap w; cache := cache w; chat := true;
      current_infer := current_infer w; infers := infers w;
      calls := calls w ++ [CLoad] |}, Ok tt).

(** [ChatTTSInfer(self.load())]: a fresh backend object. *)
Definition get_infer (context : TTSPipelineContext) : M nat :=
  load ;;; fun w =>
  ({| heap := heap w; cache := cache w; chat := chat w;
      current_infer := current_infer w; infers := S (infers w);
      calls := calls w ++ [CNewInfer (infers w)] |}, Ok (infers w)).

Definition set_current_infer (infer : nat) : M unit := fun w =>
  ({| heap := heap w; cache := cache w; chat := chat w;
      current_infer := Some infer; infers := infers w;
      calls := calls w |}, Ok tt).

(** [self.current_infer.interrupt()]: an attribute access on [None]
    raises [AttributeError]. *)
Definition interrupt : M unit := fun w =>
  match current_infer w with
  | None => (w, Raise AttributeError)
  | Some infer => log (CInterrupt infer) w
  end.

Definition emotion_is (emotion : pystr) (x : DcSpkReference) : bool :=
  PyStr.eqb (ref_emotion x) emotion.

Definition get_ref_wav (segment : TTSSegment)
  : option (list Sample) * option pystr :=
  match spk segment with
  | None => (None, None)
  | Some spk =>
      let emotion := emotion segment in
      match get_ref spk (emotion_is emotion) with
      | None => (None, None)
      | Some ref_data =>
          let wav0 :=
            bytes_to_librosa_array E (wav ref_data) (wav_sr ref_data) in
          let wav1 :=
            snd (normalize_audio E (wav_sr ref_data, wav0) 24000) in
          (Some wav1, Some (ref_text ref_data))
      end
  end.

(** *** Conversions of backend results *)

(** [data.size]: the number of elements of a channels-by-samples array. *)
Definition size (data : list (list Sample)) : nat := length (concat data).

(** Non-streaming: [(sr, np.empty(0)) if data is None else (sr, data[0])] *)
Definition to_audio (data : option (list (list Sample)))
  : Res (Z * list Sample) :=
  match data with
  | None => Ok (sr, [])
  | Some d => res_bind (getitem d 0) (fun c => Ok (sr, c))
  end.

(** Streaming:
    [np.empty(0) if data is None or data.size == 0 else data[0]] *)
Definition to_chunk (data : option (list (list Sample)))
  : Res (list Sample) :=
  match data with
  | None => Ok []
  | Some d => if (size d =? 0)%nat then Ok [] else getitem d 0
  end.

(** *** Generators *)

(** What the streaming [_gen] closes over. *)
Record Closure := {
  cl_segments : list TTSSegment;
  cl_context : TTSPipelineContext;
  cl_infer : nat;
  cl_seed : Z;
  cl_kwargs : list (string * PyArg)
}.

(** A generator object at its suspension points: the cache-hit [_gen]
    before its single [yield]; the streaming [_gen] before its first
    statement; the streaming [_gen] suspended at [yield audio_arr], with
    its locals [results], [audio_arr], the rest of the backend's stream
    and [audio_arr_buff]; and a finished generator. *)
Inductive Gen :=
| GCached (cached : nat)
| GStart (c : Closure)
| GYielded (c : Closure) (results : list (list Sample)) (audio_arr : nat)
           (rest : list (list (option (list (list Sample)))))
           (audio_arr_buff : option nat)
| GFinished.

(** The body of the inner [for i, data in enumerate(results)] loop,
    from index [i] on. *)
Fixpoint accumulate (audio_arr_buff : nat) (i : nat)
    (results : list (list Sample)) : M unit :=
  match results with
  | [] => ret tt
  | data :: results' =>
      l <- read_list audio_arr_buff ;;
      item <- lift (getitem l i) ;;
      let '(sr1, before) := item in
      let buff := before ++ data in
      write_list audio_arr_buff (<[i := (sr1, buff)]> l) ;;;
      accumulate audio_arr_buff (S i) results'
  end.

(** The head of the outer [for results in ...] loop: the next partial
    batch is converted and yielded, or the loop ends and the cache is
    written. [None] stands for [StopIteration]. *)
Definition stream_fetch (c : Closure)
    (rest : list (list (option (list (list Sample)))))
    (audio_arr_buff : option nat) : M (option nat * Gen) :=
  match rest with
  | results :: rest' =>
      results <- lift (res_map to_chunk results) ;;
      audio_arr <- alloc (List.map (fun data => (sr, data)) results) ;;
      ret (Some audio_arr, GYielded c results audio_arr rest' audio_arr_buff)
  | [] =>
      cache_set (cl_segments c) (cl_context c) audio_arr_buff ;;;
      ret (None, GFinished)
  end.

(** [next(g)] *)
Definition gen_next (g : Gen) : M (option nat * Gen) :=
  match g with
  | GCached cached => ret (Some cached, GFinished)
  | GStart c =>
      log (CGenerateAudioStream (cl_infer c) (cl_seed c) (cl_kwargs c)) ;;;
      stream_fetch c (generate_audio_stream E (cl_seed c) (cl_kwargs c)) None
  | GYielded c results audio_arr rest audio_arr_buff =>
      match audio_arr_buff with
      | None => stream_fetch c rest (Some audio_arr)
      | Some b =>
          accumulate b 0 results ;;;
          stream_fetch c rest (Some b)
      end
  | GFinished => ret (None, GFinished)
  end.

Inductive Ret :=
| RetList (a : nat)
| RetGen (g : Gen).

(** *** [generate_batch_base] *)

Definition infer_kwargs (texts : list pystr) (spk_emb : option SpkEmb)
    (spk_smp : option SpkSmp) (txt_smp : option pystr)
    (top_P : Float) (top_K : Z) (temperature : Float)
    (prompt1 prompt2 prefix : pystr) : list (string * PyArg) :=
  [ ("text"%string, ATexts texts);
    ("spk_emb"%string,
       AEmb (match spk_smp with None => spk_emb | Some _ => None end));
    ("spk_smp"%string, ASmp spk_smp);
    ("txt_smp"%string, AOptStr txt_smp);
    ("top_P"%string, AFloat top_P);
    ("top_K"%string, AInt top_K);
    ("temperature"%string, AFloat temperature);
    ("prompt1"%string, AStr prompt1);
    ("prompt2"%string, AStr prompt2);
    ("prefix"%string, AStr prefix) ].

Definition generate_batch_base (segments : list TTSSegment)
    (context : TTSPipelineContext) (stream : bool) : M Ret :=
  cached <- cache_get segments context ;;
  match cached with
  | Some cached =>
      if negb stream then ret (RetList cached)
      else ret (RetGen (GCached cached))
  | None =>
      infer <- get_infer context ;;
      set_current_infer infer ;;;
      let texts := List.map text segments in
      seg0 <- lift (getitem segments 0) ;;
      let spk_emb :=
        match spk seg0 with
        | Some _ => get_spk_emb E seg0 context
        | None => None
        end in
      let '(spk_wav, txt_smp) := get_ref_wav seg0 in
      spk_smp <-
        match spk_wav with
        | Some w =>
            log (CSampleAudioSpeaker infer w) ;;;
            ret (Some (sample_audio_speaker E w))
        | None => ret None
        end ;;
      let top_P := top_p seg0 in
      let top_K := top_k seg0 in
      let temperature := temperature seg0 in
      let prompt1 := prompt1 seg0 in
      let prompt2 := prompt2 seg0 in
      let prefix := prefix seg0 in
      let seed := infer_seed seg0 in
      let chunk_size := stream_chunk_size (infer_config context) in
      let prompt2 :=
        if truthy (strip prompt2)
        then prompt_prefix ++ prompt2 ++ prompt_suffix
        else prompt2 in
      let txt_smp :=
        match txt_smp with
        | Some t =>
            if truthy t && negb (endswith t full_stop)
            then Some (t ++ full_stop)
            else Some t
        | None => None
        end in
      let kw := infer_kwargs texts spk_emb spk_smp txt_smp top_P top_K
                  temperature prompt1 prompt2 prefix in
      if negb stream then
        log (CGenerateAudio infer seed kw) ;;;
        let results := generate_audio E seed kw in
        audio_arr <- lift (res_map to_audio results) ;;
        a <- alloc audio_arr ;;
        cache_set segments context (Some a) ;;;
        ret (RetList a)
      else
        ret (RetGen (GStart
               {| cl_segments := segments; cl_context := context;
                  cl_infer := infer; cl_seed := seed;
                  cl_kwargs :=
                    kw ++ [("stream_chunk_size"%string, AInt chunk_size)] |}))
  end.

Definition generate_batch segments context :=
  generate_batch_base segments context false.

Definition generate_batch_stream segments context :=
  generate_batch_base segments context true.

(** *** A start of the backend that fails

    [load_chat_tts()] and [ChatTTSInfer(...)] are calls into other modules
    and may raise.  [Startup] says how the two calls of line 105 end. *)
Inductive Startup :=
| Started
| LoadRaises (e : PyExc)
| InferRaises (e : PyExc).

(** [self.chat = load_chat_tts(); return self.chat]: when the call raises,
    [self.chat] is not assigned. *)
Definition load_with (s : Startup) : M unit :=
  match s with
  | LoadRaises e => log CLoad ;;; raise e
  | _ => load
  end.

(** [ChatTTSInfer(self.load())] *)
Definition get_infer_with (s : Startup) (context : TTSPipelineContext)
  : M nat :=
  load_with s ;;;
  match s with
  | InferRaises e => raise e
  | _ => fun w =>
      ({| heap := heap w; cache := cache w; chat := chat w;
          current_infer := current_infer w; infers := S (infers w);
          calls := calls w ++ [CNewInfer (infers w)] |}, Ok (infers w))
  end.

(** [generate_batch_base] with the start of the backend as [s] gives
    it. *)
Definition generate_batch_base_with (s : Startup)
    (segments : list TTSSegment) (context : TTSPipelineContext)
    (stream : bool) : M Ret :=
  cached <- cache_get segments context ;;
  match cached with
  | Some cached =>
      if negb stream then ret (RetList cached)
      else ret (RetGen (GCached cached))
  | None =>
      infer <- get_infer_with s context ;;
      set_current_infer infer ;;;
      let texts := List.map text segments in
      seg0 <- lift (getitem segments 0) ;;
      let spk_emb :=
        match spk seg0 with
        | Some _ => get_spk_emb E seg0 context
        | None => None
        end in
      let '(spk_wav, txt_smp) := get_ref_wav seg0 in
      spk_smp <-
        match spk_wav with
        | Some w =>
            log (CSampleAudioSpeaker infer w) ;;;
            ret (Some (sample_audio_speaker E w))
        | None => ret None
        end ;;
      let top_P := top_p seg0 in
      let top_K := top_k seg0 in
      let temperature := temperature seg0 in
      let prompt1 := prompt1 seg0 in
      let prompt2 := prompt2 seg0 in
      let prefix := prefix seg0 in
      let seed := infer_seed seg0 in
      let chunk_size := stream_chunk_size (infer_config context) in
      let prompt2 :=
        if truthy (strip prompt2)
        then prompt_prefix ++ prompt2 ++ prompt_suffix
        else prompt2 in
      let txt_smp :=
        match txt_smp with
        | Some t =>
            if truthy t && negb (endswith t full_stop)
            then Some (t ++ full_stop)
            else Some t
        | None => None
        end in
      let kw := infer_kwargs texts spk_emb spk_smp txt_smp top_P top_K
                  temperature prompt1 prompt2 prefix in
      if negb stream then
        log (CGenerateAudio infer seed kw) ;;;
        let results := generate_audio E seed kw in
        audio_arr <- lift (res_map to_audio results) ;;
        a <- alloc audio_arr ;;
        cache_set segments context (Some a) ;;;
        ret (RetList a)
      else
        ret (RetGen (GStart
               {| cl_segments := segments; cl_context := context;
                  cl_infer := infer; cl_seed := seed;
                  cl_kwargs :=
                    kw ++ [("stream_chunk_size"%string, AInt chunk_size)] |}))
  end.

(** *** A consumer of a generator

    [for batch in g: ...] run for at most [fuel] calls of [next].  For
    every yielded list the consumer keeps the reference it was handed and
    a copy of the list's content at that moment.  [None]: the generator
    was not exhausted within [fuel] calls. *)
Definition consume_result
    (drain : Gen -> M (option (list (nat * list (Z * list Sample)))))
    (r : option nat * Gen)
  : M (option (list (nat * list (Z * list Sample)))) :=
  match r with
  | (None, _) => ret (Some [])
  | (Some a, g') =>
      now <- read_list a ;;
      later <- drain g' ;;
      ret (option_map (cons (a, now)) later)
  end.

Fixpoint drain (fuel : nat) (g : Gen)
  : M (option (list (nat * list (Z * list Sample)))) :=
  match fuel with
  | O => ret None
  | S fuel' =>
      r <- gen_next g ;;
      consume_result (drain fuel') r
  end.

(** What a consumer that kept the references sees when it reads them in
    world [w]. *)
Definition read_back (w : World)
    (items : list (nat * list (Z * list Sample)))
  : list (list (Z * list Sample)) :=
  List.map (fun item => deref w (fst item)) items.

(** [np.concatenate([batch[i][1] for batch in batches], axis=0)]:
    [IndexError] when a batch has no index [i], [ValueError] when there
    is nothing to concatenate. *)
Definition reconstruct (i : nat) (batches : list (list (Z * list Sample)))
  : Res (list Sample) :=
  res_bind (res_map (fun batch => getitem batch i) batches) (fun items =>
    match items with
    | [] => Raise ValueError
    | _ :: _ => Ok (concat (List.map snd items))
    end).

(** The total reading of one backend chunk and of one partial batch, as
    [to_chunk] and the two comprehensions of the streaming loop compute
    them. *)
Definition chunk (data : option (list (list Sample))) : list Sample :=
  match data with
  | None => []
  | Some d => if (size d =? 0)%nat then [] else hd [] d
  end.

Definition yielded (batch : list (option (list (list Sample))))
  : list (Z * list Sample) :=
  List.map (fun data => (sr, chunk data)) batch.

(** The keyword arguments [generate_batch_base] builds on a cache miss,
    as a function of the first segment, the context and the texts. *)
Definition miss_kwargs (seg0 : TTSSegment) (context : TTSPipelineContext)
    (texts : list pystr) : list (string * PyArg) :=
  infer_kwargs texts
    (match spk seg0 with
     | Some _ => get_spk_emb E seg0 context
     | None => None
     end)
    (option_map (sample_audio_speaker E) (fst (get_ref_wav seg0)))
    (option_map
       (fun t => if truthy t && negb (endswith t full_stop)
                 then t ++ full_stop else t)
       (snd (get_ref_wav seg0)))
    (top_p seg0) (top_k seg0) (temperature seg0) (prompt1 seg0)
    (if truthy (strip (prompt2 seg0))
     then prompt_prefix ++ prompt2 seg0 ++ prompt_suffix
     else prompt2 seg0)
    (prefix seg0).

Definition stream_kwargs (seg0 : TTSSegment) (context : TTSPipelineContext)
    (texts : list pystr) : list (string * PyArg) :=
  miss_kwargs seg0 context texts
  ++ [("stream_chunk_size"%string,
       AInt (stream_chunk_size (infer_config context)))].

(** The calls that precede the generation call on a cache miss. *)
Definition miss_prelude (w : World) (seg0 : TTSSegment) : list Call :=
  calls w ++ [CLoad; CNewInfer (infers w)]
  ++ match fst (get_ref_wav seg0) with
     | Some wv => [CSampleAudioSpeaker (infers w) wv]
     | None => []
     end.


(** The content of the buffer list after [accumulate] ran from index
    [i] over [results], when it does not raise. *)
Fixpoint acc_from (i : nat) (results : list (list Sample))
    (l : list (Z * list Sample)) : list (Z * list Sample) :=
  match results with
  | [] => l
  | data :: results' =>
      match l !! i with
      | Some (sr1, before) =>
          acc_from (S i) results' (<[i := (sr1, before ++ data)]> l)
      | None => l
      end
  end.

(** The buffer after the partial batches [batches] were accumulated
    into it, in order. *)
Definition accumulated (l : list (Z * list Sample))
    (batches : list (list (option (list (list Sample)))))
  : list (Z * list Sample) :=
  fold_left (fun l batch => acc_from 0 (List.map chunk batch) l) batches l.

(** The chunk of segment index [i] in a partial batch. *)
Definition chunk_at (i : nat) (batch : list (option (list (list Sample))))
  : list Sample :=
  default [] (List.map chunk batch !! i).

(** On a cache miss with first segment [seg0], the backend's generation
    entry points are reached as follows: the non-streaming call invokes
    [generate_audio] under [seed] with keywords [kw]; the streaming call
    invokes nothing when it returns its generator, and the generator's
    first [next] invokes [generate_audio_stream] under [seed] with
    keywords [kws]. *)
Definition backend_receives (w : World) (seg0 : TTSSegment)
    (rest : list TTSSegment) (context : TTSPipelineContext) (seed : Z)
    (kw kws : list (string * PyArg)) : Prop :=
  calls (fst (generate_batch_base (seg0 :: rest) context false w))
  = miss_prelude w seg0 ++ [CGenerateAudio (infers w) seed kw]
  /\ exists w1 g,
       generate_batch_base (seg0 :: rest) context true w
       = (w1, Ok (RetGen g))
       /\ calls w1 = miss_prelude w seg0
       /\ calls (fst (gen_next g w1))
          = miss_prelude w seg0
            ++ [CGenerateAudioStream (infers w) seed kws].

(** [unload_chat_tts(self.chat); self.chat = None].  The field
    [current_infer] is left as it is. *)
Definition unload : M unit := fun w =>
  ({| heap := heap w; cache := cache w; chat := false;
      current_infer := current_infer w; infers := infers w;
      calls := calls w |}, Ok tt).

End ChatTtsModel.

(** ** The web UI entry point [tts_generate], up to the inference
    configuration it builds *)

Module Webui.

(** A float64 by its value: finite values are rationals. *)
Inductive float64 :=
| NaN
| PInf
| NInf
| Fin (q : Q).

(** A numeric argument: a Python [int] or a [float]. *)
Inductive pynum :=
| PyInt (z : Z)
| PyFloat (f : float64).

(** Truth value of a number: it is not zero. *)
Definition num_truthy (x : pynum) : bool :=
  match x with
  | PyInt z => negb (z =? 0)
  | PyFloat (Fin q) => negb (Qeq_bool q 0)
  | PyFloat _ => true
  end.

(** The value [np.clip(..., dtype=np.float64)] computes with.  An [int]
    that fits neither a signed nor an unsigned 64-bit integer cannot be
    cast and the call raises [UFuncTypeError].  An [int] that fits is
    taken at its real value: up to 2^53 the conversion is exact, and above
    it the converted value is still above every bound used here. *)
Definition as_float64 (x : pynum) : Res float64 :=
  match x with
  | PyInt z =>
      if (- 2 ^ 63 <=? z) && (z <=? 2 ^ 64 - 1) then Ok (Fin (inject_Z z))
      else Raise UFuncTypeError
  | PyFloat f => Ok f
  end.

(** [np.maximum(x, lo)] and [np.minimum(x, hi)] for finite bounds; NaN
    propagates. *)
Definition np_maximum (x : float64) (lo : Q) : float64 :=
  match x with
  | NaN => NaN
  | PInf => PInf
  | NInf => Fin lo
  | Fin q => if Qle_bool lo q then Fin q else Fin lo
  end.

Definition np_minimum (x : float64) (hi : Q) : float64 :=
  match x with
  | NaN => NaN
  | PInf => Fin hi
  | NInf => NInf
  | Fin q => if Qle_bool q hi then Fin q else Fin hi
  end.

Definition np_clip (x : pynum) (a_min a_max : Z) : Res float64 :=
  res_bind (as_float64 x) (fun f =>
    Ok (np_minimum (np_maximum f (inject_Z a_min)) (inject_Z a_max))).

(** Rounding towards zero. *)
Definition Qtrunc (q : Q) : Z :=
  if Qle_bool 0 q then Qfloor q else Qceiling q.

(** [int(x)] of a float64: NaN raises [ValueError], an infinity
    [OverflowError]. *)
Definition int_of_float (f : float64) : Res Z :=
  match f with
  | Fin q => Ok (Qtrunc q)
  | NaN => Raise ValueError
  | PInf | NInf => Raise OverflowError
  end.

(** [int(x)] of a number. *)
Definition int_of_num (x : pynum) : Res Z :=
  match x with
  | PyInt z => Ok z
  | PyFloat f => int_of_float f
  end.

(** What loading the speaker file gives. *)
Inductive SpkFile :=
| Unreadable
| TensorEmb
| Loaded.

(** [s[0:n]] *)
Definition slice_to (s : pystr) (n : Z) : pystr :=
  if 0 <=? n then take (Z.to_nat n) s
  else take (length s - Z.to_nat (- n))%nat s.

(** [a or b] on strings. *)
Definition str_or (a b : pystr) : pystr := if truthy a then a else b.

(** [infer_seed or params.get("seed", infer_seed)], and the same
    expression for the temperature. *)
Definition seed_or (infer_seed : pynum) (params_seed : option pynum)
  : pynum :=
  if num_truthy infer_seed then infer_seed
  else match params_seed with
       | Some s => s
       | None => infer_seed
       end.

(** The two lines that clamp the seed. *)
Definition clamp_seed (infer_seed : pynum) : Res Z :=
  res_bind (np_clip infer_seed (-1) (2 ^ 32 - 1)) (fun infer_seed =>
  int_of_float infer_seed).

(** What the claim on the seed says, in its words: [s] is an integer of
    the closed interval from -1 to 2^32 - 1, and it is the value [x]
    clamped into that interval (and, for a float, rounded towards zero). *)
Definition is_clamp_of (x : pynum) (s : Z) : Prop :=
  -1 <= s <= 2 ^ 32 - 1
  /\ match x with
     | PyInt z =>
         (z < -1 -> s = -1)
         /\ (2 ^ 32 - 1 < z -> s = 2 ^ 32 - 1)
         /\ (-1 <= z <= 2 ^ 32 - 1 -> s = z)
     | PyFloat (Fin q) =>
         ((q < inject_Z (-1))%Q -> s = -1)
         /\ ((inject_Z (2 ^ 32 - 1) < q)%Q -> s = 2 ^ 32 - 1)
         /\ ((inject_Z (-1) <= q)%Q -> (q <= inject_Z (2 ^ 32 - 1))%Q ->
             ((0 <= q)%Q ->
              (inject_Z s <= q)%Q /\ (q < inject_Z (s + 1))%Q)
             /\ ((q < 0)%Q ->
                 (inject_Z (s - 1) < q)%Q /\ (q <= inject_Z s)%Q))
     | PyFloat PInf => s = 2 ^ 32 - 1
     | PyFloat NInf => s = -1
     | PyFloat NaN => False
     end.

(** The seeds the two clamping lines do not raise on. *)
Definition seed_accepted (x : pynum) : Prop :=
  match x with
  | PyInt z => - 2 ^ 63 <= z <= 2 ^ 64 - 1
  | PyFloat NaN => False
  | PyFloat _ => True
  end.

Section TtsGenerate.

(** The speaker argument is only passed on. *)
Context {Spk : Type}.

(** The entries of the dictionary [calc_spk_style] returns that
    [tts_generate] reads with [params.get]. *)
Record Params := {
  p_spk : option Spk;
  p_seed : option pynum;
  p_temperature : option pynum;
  p_prefix : option pystr;
  p_prompt1 : option pystr;
  p_prompt2 : option pystr
}.

Record Args := {
  a_text : pystr;
  a_temperature : pynum;
  a_top_p : pynum;
  a_top_k : pynum;
  a_spk : Spk;
  a_infer_seed : pynum;
  a_prompt1 : pystr;
  a_prompt2 : pystr;
  a_prefix : pystr;
  a_style : pystr;
  a_batch_size : pynum;
  a_spk_file : option SpkFile;
  a_spliter_thr : Z;
  a_eos : pystr
}.

Record ChatTTSConfig := {
  c_style : pystr;
  c_temperature : pynum;
  c_top_k : Z;
  c_top_p : pynum;
  c_prefix : pystr;
  c_prompt1 : pystr;
  c_prompt2 : pystr
}.

(** [calc_spk_style], which may raise; [webui_config.tts_max]; and the
    default of [InferConfig] for the field [tts_generate] does not set. *)
Variable calc_spk_style : Spk -> pystr -> Res Params.
Variables (tts_max : Z) (default_stream_chunk_size : Z).

(** [if style == "*auto": style = ""] *)
Definition style_of (args : Args) : pystr :=
  if PyStr.eqb (a_style args) (lit "*auto") then [] else a_style args.

(** [if isinstance(top_k, float): top_k = int(top_k)] *)
Definition top_k_of (args : Args) : Res Z := int_of_num (a_top_k args).

(** [tts_generate] up to the two configurations it builds. *)
Definition tts_generate_configs (args : Args)
  : Res (ChatTTSConfig * InferConfig) :=
  let batch_size :=
    match int_of_num (a_batch_size args) with
    | Ok b => b
    | Raise _ => 4
    end in
  let max_len := tts_max in
  let text := slice_to (strip (a_text args)) max_len in
  if negb (truthy text) then
    Raise (GrError "Text is empty, please input some text")
  else
    let style := style_of args in
    res_bind (top_k_of args) (fun top_k =>
    res_bind (calc_spk_style (a_spk args) style) (fun params =>
    let spk := match p_spk params with Some s => s | None => a_spk args end in
    let infer_seed := seed_or (a_infer_seed args) (p_seed params) in
    let temperature := seed_or (a_temperature args) (p_temperature params) in
    let prefix :=
      str_or (a_prefix args)
        (match p_prefix params with Some v => v | None => a_prefix args end) in
    let prompt1 :=
      str_or (a_prompt1 args)
        (match p_prompt1 params with Some v => v | None => [] end) in
    let prompt2 :=
      str_or (a_prompt2 args)
        (match p_prompt2 params with Some v => v | None => [] end) in
    res_bind (clamp_seed infer_seed) (fun infer_seed =>
    res_bind
      (match a_spk_file args with
       | Some Unreadable => Raise (GrError "Failed to load speaker file")
       | Some TensorEmb => Raise (GrError "Speaker file is not supported")
       | Some Loaded | None => Ok tt
       end) (fun _ =>
    Ok ({| c_style := style; c_temperature := temperature;
           c_top_k := top_k; c_top_p := a_top_p args; c_prefix := prefix;
           c_prompt1 := prompt1; c_prompt2 := prompt2 |},
        {| batch_size := batch_size;
           spliter_threshold := a_spliter_thr args;
           eos := a_eos args;
           seed := infer_seed;
           stream_chunk_size := default_stream_chunk_size |}))))).

(** The inference configuration [tts_generate] builds. *)
Definition tts_generate (args : Args) : Res InferConfig :=
  res_bind (tts_generate_configs args) (fun configs => Ok (snd configs)).

End TtsGenerate.

End Webui.

(** ** A concrete instance

    Samples are integers, pass-through floats are rationals, a speaker
    embedding is an identifier, an encoded speaker sample is the waveform
    itself, and the cache is an association list keyed by the texts of the
    batch.  The backend's answers are given. *)

Module Demo.

Fixpoint texts_eqb (a b : list pystr) : bool :=
  match a, b with
  | [], [] => true
  | x :: a', y :: b' => PyStr.eqb x y && texts_eqb a' b'
  | _, _ => false
  end.

Fixpoint store_get (k : list pystr) (c : list (list pystr * option nat))
  : option nat :=
  match c with
  | [] => None
  | (k', v) :: c' => if texts_eqb k k' then v else store_get k c'
  end.

Definition collaborators
    (results : list (option (list (list Z))))
    (stream : list (list (option (list (list Z)))))
  : @Collaborators Z Q nat (list Z) (list Z) (list (list pystr * option nat)) :=
  {| get_cache := fun c segments _ => store_get (List.map text segments) c;
     set_cache := fun c segments _ value =>
                    (List.map text segments, value) :: c;
     get_spk_emb := fun _ _ => Some 7%nat;
     bytes_to_librosa_array := fun b _ => b;
     normalize_audio := fun a target_sr => (target_sr, snd a);
     sample_audio_speaker := fun w => w;
     generate_audio := fun _ _ => results;
     generate_audio_stream := fun _ _ => stream |}.

(** A speaker with one reference, tagged "happy". *)
Definition speaker (transcript : pystr) : @TTSSpeaker (list Z) :=
  {| get_ref := fun p =>
       let r := {| ref_emotion := lit "happy"; wav := [5; 6; 7];
                   wav_sr := 44100; ref_text := transcript |} in
       if p r then Some r else None |}.

Definition segment (t : string) (s : option (@TTSSpeaker (list Z)))
    (p2 : string) : @TTSSegment Q (list Z) :=
  {| text := lit t; spk := s; emotion := lit "happy";
     top_p := 7 # 10; top_k := 20; temperature := 3 # 10;
     repetition_penalty := 105 # 100; max_new_token := 2048;
     prompt1 := []; prompt2 := lit p2; prefix := [];
     infer_seed := 42 |}.

Definition context : TTSPipelineContext :=
  {| infer_config :=
       {| batch_size := 4; spliter_threshold := 100;
          eos := lit "[uv_break]"; seed := 42; stream_chunk_size := 96 |} |}.

(** A fresh model object: nothing loaded, no backend created. *)
Definition fresh : @World Z Q nat (list Z) (list (list pystr * option nat)) :=
  {| heap := []; cache := []; chat := false; current_infer := None;
     infers := 0; calls := [] |}.

(** A model object whose cache holds the list at address 0 for the batch
    ["Hello world"]. *)
Definition warm : @World Z Q nat (list Z) (list (list pystr * option nat)) :=
  {| heap := [[(sr, [1; 2; 3])]];
     cache := [([lit "Hello world"], Some 0%nat)];
     chat := true; current_infer := Some 0%nat; infers := 1; calls := [] |}.

(** The generator a streaming call returns, or [GFinished] when the
    call did not return one. *)
Definition gen_of {Sample Float SpkEmb SpkSmp AudioBytes : Type}
    (r : Res (@Ret Sample Float SpkEmb SpkSmp AudioBytes))
  : @Gen Sample Float SpkEmb SpkSmp AudioBytes :=
  match r with
  | Ok (RetGen g) => g
  | _ => GFinished
  end.

(** The one-segment batch ["Hello world"], without a speaker and with
    a speaker whose reference has the given transcript. *)
Definition hello : @TTSSegment Q (list Z) := segment "Hello world" None "".

Definition hello_as (transcript : pystr) : @TTSSegment Q (list Z) :=
  segment "Hello world" (Some (speaker transcript)) "be cheerful".

(** A backend that produces the samples 1, 2 for the batch: at once, or
    as the chunk 1 followed by the chunk 2. *)
Definition two_chunks :=
  collaborators [Some [[1; 2]]] [[Some [[1]]]; [Some [[2]]]].

(** A backend whose second segment fails, and whose stream ends with an
    element-free chunk. *)
Definition second_fails :=
  collaborators [Some [[1; 2]; [9; 9]]; None]
                [[Some [[1]]; None]; [Some [[2]]; None];
                 [Some [[]]; None]].

(** A backend whose stream is cut before the first partial batch. *)
Definition cut_short := collaborators [Some [[1; 2]]] [].

End Demo.

(** ** The other functions of [webui_utils.py] *)

Module WebuiLists.

Import Webui.

(** An element of a parsed SSML document: a break, or a segment with its
    text.  [Attrs] stands for the other fields of a segment. *)
Inductive SSMLItem (Attrs : Type) :=
| SSMLBreak (duration : Z)
| SSMLSegment (text : pystr) (attrs : Attrs).
Arguments SSMLBreak {Attrs} duration.
Arguments SSMLSegment {Attrs} text attrs.

(** The loop of [segments_length_limit] over the segments still to be
    visited, with its variables [ret_segments] and [total_len]; [break]
    ends it. *)
Fixpoint limit_loop {Attrs} (segments ret_segments : list (SSMLItem Attrs))
    (total_len total_max : Z) : list (SSMLItem Attrs) :=
  match segments with
  | [] => ret_segments
  | seg :: segments' =>
      match seg with
      | SSMLBreak _ =>
          limit_loop segments' (ret_segments ++ [seg]) total_len total_max
      | SSMLSegment text _ =>
          let total_len := total_len + Z.of_nat (length text) in
          if total_len >? total_max then ret_segments
          else limit_loop segments' (ret_segments ++ [seg]) total_len
                 total_max
      end
  end.

Definition segments_length_limit {Attrs} (segments : list (SSMLItem Attrs))
    (total_max : Z) : list (SSMLItem Attrs) :=
  limit_loop segments [] 0 total_max.

(** The number of characters of text in a list of items. *)
Fixpoint text_len {Attrs} (segments : list (SSMLItem Attrs)) : Z :=
  match segments with
  | [] => 0
  | SSMLBreak _ :: segments' => text_len segments'
  | SSMLSegment text _ :: segments' =>
      Z.of_nat (length text) + text_len segments'
  end.

Definition is_break {Attrs} (seg : SSMLItem Attrs) : bool :=
  match seg with SSMLBreak _ => true | SSMLSegment _ _ => false end.

(** The two fields of a speaker [get_speaker_names] reads. *)
Record Speaker := { gender : pystr; name : pystr }.

Definition get_speaker_show_name (spk : Speaker) : pystr :=
  if PyStr.eqb (gender spk) (lit "*") || PyStr.eqb (gender spk) []
  then name spk
  else gender spk ++ lit " : " ++ name spk.

(** [s.startswith(p)] *)
Definition startswith (s p : pystr) : bool :=
  PyStr.eqb (take (length p) s) p.

(** [x.startswith("*") and "-1" or x] *)
Definition sort_key (x : pystr) : pystr :=
  if startswith x (lit "*") then lit "-1" else x.

(** [a < b] on strings: lexicographic on code points. *)
Fixpoint str_ltb (a b : pystr) : bool :=
  match a, b with
  | _, [] => false
  | [], _ :: _ => true
  | x :: a', y :: b' => (x <? y)%N || ((x =? y)%N && str_ltb a' b')
  end.

(** [list.sort(key=...)] is a stable sort on the keys; it is modelled by
    insertion from the left, each element going behind the elements whose
    key is not greater. *)
Fixpoint insert_by (key : pystr -> pystr) (x : pystr) (sorted : list pystr)
  : list pystr :=
  match sorted with
  | [] => [x]
  | y :: sorted' =>
      if str_ltb (key x) (key y) then x :: y :: sorted'
      else y :: insert_by key x sorted'
  end.

Definition sort_by (key : pystr -> pystr) (l : list pystr) : list pystr :=
  fold_left (fun sorted x => insert_by key x sorted) l [].

(** [a] may stand before [b]: the key of [b] is not smaller. *)
Definition key_le (key : pystr -> pystr) (a b : pystr) : Prop :=
  str_ltb (key b) (key a) = false.

(** [get_speaker_names], given the list [get_speakers()] returns. *)
Definition get_speaker_names (speakers : list Speaker)
  : list Speaker * list pystr :=
  let speaker_names := List.map get_speaker_show_name speakers in
  let speaker_names := sort_by sort_key speaker_names in
  (speakers, speaker_names).

Section SynthesizeSsml.

(** The SSML parser, [webui_config.ssml_max], and the defaults of
    [InferConfig] for the fields [synthesize_ssml] does not set. *)
Context {Attrs : Type}.
Variables (parse : pystr -> list (SSMLItem Attrs)) (ssml_max : Z)
          (default_seed default_stream_chunk_size : Z).

(** [synthesize_ssml] up to the inference configuration it builds. *)
Definition synthesize_ssml (ssml : pystr) (batch_size : pynum)
    (eos : pystr) (spliter_thr : Z) : Res InferConfig :=
  let batch_size :=
    match int_of_num batch_size with
    | Ok b => b
    | Raise _ => 8
    end in
  let ssml := strip ssml in
  if PyStr.eqb ssml [] then
    Raise (GrError "SSML is empty, please input some SSML")
  else
    let segments := parse ssml in
    let max_len := ssml_max in
    let segments := segments_length_limit segments max_len in
    if (length segments =? 0)%nat then
      Raise (GrError "No valid segments in SSML")
    else
      Ok {| batch_size := batch_size;
            spliter_threshold := spliter_thr;
            eos := eos;
            seed := default_seed;
            stream_chunk_size := default_stream_chunk_size |}.

End SynthesizeSsml.

End WebuiLists.

(** ** The HTTP endpoints [ssml_api.py] and [refiner_api.py] *)

Module Api.

(** What a call can raise: an [HTTPException]; any other exception that
    is an [Exception], of which only [str(e)] is used; or an exception
    that is a [BaseException] without being an [Exception]
    ([KeyboardInterrupt], [SystemExit], [asyncio.CancelledError]), given
    by its class name. *)
Inductive ApiExc :=
| HTTPException (status_code : Z) (detail : pystr)
| OtherException (str : pystr)
| BaseOnly (name : pystr).

Inductive ApiRes (A : Type) :=
| Return (a : A)
| Throw (e : ApiExc).
Arguments Return {A} a.
Arguments Throw {A} e.

(** The handler both endpoints share:
    [except Exception as e: if isinstance(e, HTTPException): raise e
     else: raise HTTPException(status_code=500, detail=str(e))].
    An exception that is not an [Exception] is not caught. *)
Definition reraise {A} (r : ApiRes A) : ApiRes A :=
  match r with
  | Return a => Return a
  | Throw (HTTPException status_code detail) =>
      Throw (HTTPException status_code detail)
  | Throw (OtherException str) => Throw (HTTPException 500 str)
  | Throw (BaseOnly name) => Throw (BaseOnly name)
  end.

Section Endpoints.

Context {Enhancer Adjuster Buffer : Type}.

Record SSMLRequest := {
  req_ssml : pystr;
  req_format : pystr;
  req_batch_size : Z;
  req_eos : pystr;
  req_spliter_thr : Z;
  req_enhancer : Enhancer;
  req_adjuster : Adjuster
}.

(** [str.lower], and [SSMLHandler(...).enqueue_to_buffer(format=...)],
    which receives the SSML, the inference configuration, the two
    pass-through configurations and the format as sent. *)
Variable lower : pystr -> pystr.
Variable enqueue_to_buffer :
  pystr -> InferConfig -> Adjuster -> Enhancer -> pystr -> ApiRes Buffer.

(** The defaults of [InferConfig] for the fields the endpoint leaves. *)
Variables (default_seed default_stream_chunk_size : Z).

(** The body of the [try] block of [synthesize_ssml_api]; the response
    is the buffer with its media type. *)
Definition synthesize_ssml_body (request : SSMLRequest)
  : ApiRes (Buffer * pystr) :=
  let ssml := req_ssml request in
  let format := lower (req_format request) in
  let batch_size := req_batch_size request in
  let eos := req_eos request in
  let spliter_thr := req_spliter_thr request in
  let enhancer := req_enhancer request in
  let adjuster := req_adjuster request in
  if batch_size <? 1 then
    Throw (HTTPException 400 (lit "Batch size must be greater than 0."))
  else if spliter_thr <? 50 then
    Throw (HTTPException 400
             (lit "Spliter threshold must be greater than 50."))
  else if negb (truthy ssml) || PyStr.eqb ssml [] then
    Throw (HTTPException 400 (lit "SSML content is required."))
  else if negb (PyStr.eqb format (lit "mp3") || PyStr.eqb format (lit "wav"))
  then
    Throw (HTTPException 400 (lit "Format must be 'mp3' or 'wav'."))
  else
    let infer_config :=
      {| batch_size := batch_size; spliter_threshold := spliter_thr;
         eos := eos; seed := default_seed;
         stream_chunk_size := default_stream_chunk_size |} in
    match enqueue_to_buffer ssml infer_config adjuster enhancer
            (req_format request) with
    | Throw e => Throw e
    | Return buffer =>
        let mime_type := lit "audio/" ++ format in
        let mime_type :=
          if PyStr.eqb format (lit "mp3") then lit "audio/mpeg"
          else mime_type in
        Return (buffer, mime_type)
    end.

Definition synthesize_ssml_api (request : SSMLRequest)
  : ApiRes (Buffer * pystr) :=
  reraise (synthesize_ssml_body request).

(** [refiner_prompt_post], given [refiner.refine_text] applied to the
    fields of the request: the answer is the pair of the message and the
    refined text. *)
Definition refiner_prompt_post {Request : Type}
    (refine_text : Request -> ApiRes pystr) (request : Request)
  : ApiRes (pystr * pystr) :=
  reraise
    (match refine_text request with
     | Return refined_text => Return (lit "ok", refined_text)
     | Throw e => Throw e
     end).

End Endpoints.

End Api.

(** ** [sys_paths.py] *)

Module SysPaths.

(** [pth in sys.path] *)
Fixpoint contains (sys_path : list pystr) (pth : pystr) : bool :=
  match sys_path with
  | [] => false
  | p :: sys_path' => PyStr.eqb p pth || contains sys_path' pth
  end.

(** One round of the loop of [setup_repos_paths]:
    [if pth not in sys.path: sys.path.insert(0, pth)]. *)
Definition add_path (sys_path : list pystr) (pth : pystr) : list pystr :=
  if negb (contains sys_path pth) then pth :: sys_path else sys_path.

Section Paths.

(** [REPO_DIR]: the absolute path of a directory beside the module. *)
Variable REPO_DIR : pystr -> pystr.

Definition paths : list pystr :=
  [REPO_DIR (lit "cosyvoice"); REPO_DIR (lit "openvoice")].

(** [setup_repos_paths], as a function of [sys.path]. *)
Definition setup_repos_paths (sys_path : list pystr) : list pystr :=
  fold_left add_path paths sys_path.

End Paths.

End SysPaths.

(** ** More concrete inputs *)

Module Samples.

Import Demo.

(** A backend whose only result has no channel. *)
Definition no_channel := collaborators [Some []] [].

(** A backend whose second partial batch has an entry more than the
    first. *)
Definition growing :=
  collaborators [] [[Some [[1]]]; [Some [[2]]; Some [[3]]]].

(** The streaming call on a fresh model, its generator and the state it
    leaves. *)
Definition started := generate_batch_base two_chunks [hello] context true fresh.
Definition started_gen := gen_of (snd started).
Definition started_world := fst started.

(** A short SSML document: 5 characters, a break, 7 characters. *)
Definition document : list (WebuiLists.SSMLItem unit) :=
  [WebuiLists.SSMLSegment (lit "Hello") tt; WebuiLists.SSMLBreak 500;
   WebuiLists.SSMLSegment (lit "goodbye") tt].

(** A style table that knows one style, with seed 7, and arguments of
    [tts_generate] for a seed. *)
Definition styles (_ : unit) (_ : pystr) : Res (@Webui.Params unit) :=
  Ok {| Webui.p_spk := None; Webui.p_seed := Some (Webui.PyInt 7);
        Webui.p_temperature := None; Webui.p_prefix := None;
        Webui.p_prompt1 := None; Webui.p_prompt2 := None |}.

Definition seed_args (infer_seed : Webui.pynum) : @Webui.Args unit :=
  {| Webui.a_text := lit "Hello";
     Webui.a_temperature := Webui.PyFloat (Webui.Fin (3 # 10));
     Webui.a_top_p := Webui.PyFloat (Webui.Fin (7 # 10));
     Webui.a_top_k := Webui.PyFloat (Webui.Fin (20 # 1));
     Webui.a_spk := tt;
     Webui.a_infer_seed := infer_seed;
     Webui.a_prompt1 := []; Webui.a_prompt2 := []; Webui.a_prefix := [];
     Webui.a_style := lit "*auto";
     Webui.a_batch_size := Webui.PyFloat Webui.NaN;
     Webui.a_spk_file := None; Webui.a_spliter_thr := 100;
     Webui.a_eos := lit "[uv_break]" |}.

Definition zero_seed_args : @Webui.Args unit := seed_args (Webui.PyInt 0).

(** An SSML request at the lower bounds, and a handler that returns the
    SSML it was given. *)
Definition request : @Api.SSMLRequest unit unit :=
  {| Api.req_ssml := lit "<speak>Hi</speak>"; Api.req_format := lit "mp3";
     Api.req_batch_size := 1; Api.req_eos := lit "[uv_break]";
     Api.req_spliter_thr := 50; Api.req_enhancer := tt;
     Api.req_adjuster := tt |}.

Definition echo (ssml : pystr) (_ : InferConfig) (_ _ : unit) (_ : pystr)
  : Api.ApiRes pystr := Api.Return ssml.

(** Repository directories under /repo/. *)
Definition repo_dir (name : pystr) : pystr := lit "/repo/" ++ name.

End Samples.

(** * Properties *)

(** ** Strings *)

Module PyStrFacts.

Lemma eqb_eq s t : eqb s t = true <-> s = t.
Proof.
  revert t; induction s as [|c s IH]; intros [|d t]; simpl; try easy.
  rewrite andb_true_iff, N.eqb_eq, IH. split.
  - intros [-> ->]; reflexivity.
  - intros [= -> ->]; auto.
Qed.

Lemma endswith_spec s suf :
  endswith s suf = true <-> exists p, s = p ++ suf.
Proof.
  unfold endswith. rewrite andb_true_iff, Nat.leb_le, eqb_eq. split.
  - intros [Hle Hd]. exists (take (length s - length suf)%nat s).
    rewrite <- (take_drop (length s - length suf)%nat s) at 1.
    now rewrite Hd.
  - intros [p ->]. rewrite length_app. split; [lia|].
    replace (length p + length suf - length suf)%nat with (length p) by lia.
    apply drop_app_length.
Qed.

Lemma truthy_lstrip s :
  truthy (lstrip s) = true <-> Exists (fun c => isspace c = false) s.
Proof.
  induction s as [|c s IH]; simpl.
  - split; [discriminate | intros H; inversion H].
  - destruct (isspace c) eqn:E.
    + rewrite IH. split; [intros H; now constructor 2|].
      intros H; inversion H; subst; [congruence | assumption].
    + simpl. split; [intros _; now constructor 1 | reflexivity].
Qed.

Lemma truthy_rev s : truthy (rev s) = truthy s.
Proof. destruct s as [|c s]; [reflexivity|]. simpl. now destruct (rev s). Qed.

Lemma Exists_lstrip s :
  Exists (fun c => isspace c = false) (lstrip s)
  <-> Exists (fun c => isspace c = false) s.
Proof.
  induction s as [|c s IH]; simpl; [reflexivity|].
  destruct (isspace c) eqn:E; [|reflexivity].
  rewrite IH. split; [intros H; now constructor 2|].
  intros H; inversion H; subst; [congruence | assumption].
Qed.

(** [s.strip()] is truthy exactly when [s] has a non-whitespace
    character. *)
Lemma truthy_strip s :
  truthy (strip s) = true <-> Exists (fun c => isspace c = false) s.
Proof.
  unfold strip, rstrip. rewrite truthy_rev, truthy_lstrip.
  rewrite <- (Exists_lstrip s), !Exists_exists.
  split; intros (c & Hc & Hs); exists c; split; auto;
    apply list_elem_of_In; apply list_elem_of_In in Hc;
    [apply in_rev | apply in_rev in Hc]; assumption.
Qed.

End PyStrFacts.

(** ** Results *)

Lemma res_map_ok {A B} (f : A -> Res B) (g : A -> B) (l : list A) :
  (forall x, f x = Ok (g x)) -> res_map f l = Ok (List.map g l).
Proof.
  intros Hf. induction l as [|x l IH]; simpl; [reflexivity|].
  now rewrite Hf, IH.
Qed.

Lemma res_map_Forall {A B} (f : A -> Res B) (g : A -> B) (l : list A) :
  Forall (fun x => f x = Ok (g x)) l -> res_map f l = Ok (List.map g l).
Proof.
  induction 1 as [|x l Hx _ IH]; simpl; [reflexivity|].
  now rewrite Hx, IH.
Qed.

(** ** The segment batch generator *)

Section ChatTtsModelFacts.

Context {Sample Float SpkEmb SpkSmp AudioBytes CacheStore : Type}.
Variable E : @Collaborators Sample Float SpkEmb SpkSmp AudioBytes CacheStore.

(** *** Conversions *)

Lemma size_zero (d : list (list Sample)) c cs :
  d = c :: cs -> size d = 0%nat -> c = [].
Proof.
  intros -> H. unfold size in H. simpl in H. rewrite length_app in H.
  destruct c; [reflexivity | simpl in H; lia].
Qed.

(** [to_chunk] never raises: an array with an element has a first row. *)
Lemma to_chunk_ok (data : option (list (list Sample))) :
  to_chunk data = Ok (chunk data).
Proof.
  destruct data as [d|]; simpl; [|reflexivity].
  destruct (size d =? 0)%nat eqn:Hs; [reflexivity|].
  destruct d as [|c cs]; [discriminate Hs | reflexivity].
Qed.

(** *** The run on a cache miss *)

Ltac run_miss :=
  cbn -[infer_kwargs strip endswith truthy res_map prompt_prefix
        prompt_suffix full_stop].

Lemma miss_stream (w : World) seg0 rest context :
  get_cache E (cache w) (seg0 :: rest) context = None ->
  generate_batch_base E (seg0 :: rest) context true w =
  ({| heap := heap w; cache := cache w; chat := true;
      current_infer := Some (infers w); infers := S (infers w);
      calls := miss_prelude E w seg0 |},
   Ok (RetGen (GStart
     {| cl_segments := seg0 :: rest; cl_context := context;
        cl_infer := infers w; cl_seed := infer_seed seg0;
        cl_kwargs :=
          stream_kwargs E seg0 context (List.map text (seg0 :: rest)) |}))).
Proof.
  intros Hmiss.
  unfold generate_batch_base, bind, cache_get, get_infer, load,
    set_current_infer, lift, getitem, miss_prelude, stream_kwargs,
    miss_kwargs.
  rewrite Hmiss. run_miss.
  destruct (get_ref_wav E seg0) as [[wv|] [txt|]]; run_miss;
    rewrite <- ?app_assoc;
    try destruct (truthy txt && negb (endswith txt full_stop));
    reflexivity.
Qed.

Lemma miss_batch (w : World) seg0 rest context :
  get_cache E (cache w) (seg0 :: rest) context = None ->
  let kw := miss_kwargs E seg0 context (List.map text (seg0 :: rest)) in
  let log' := miss_prelude E w seg0
              ++ [CGenerateAudio (infers w) (infer_seed seg0) kw] in
  generate_batch_base E (seg0 :: rest) context false w =
  match res_map to_audio (generate_audio E (infer_seed seg0) kw) with
  | Ok audio_arr =>
      ({| heap := heap w ++ [audio_arr];
          cache := set_cache E (cache w) (seg0 :: rest) context
                     (Some (length (heap w)));
          chat := true; current_infer := Some (infers w);
          infers := S (infers w); calls := log' |},
       Ok (RetList (length (heap w))))
  | Raise e =>
      ({| heap := heap w; cache := cache w; chat := true;
          current_infer := Some (infers w); infers := S (infers w);
          calls := log' |},
       Raise e)
  end.
Proof.
  intros Hmiss kw log'. subst kw log'.
  unfold generate_batch_base, bind, cache_get, get_infer, load,
    set_current_infer, lift, getitem, miss_prelude, miss_kwargs.
  rewrite Hmiss. run_miss.
  destruct (get_ref_wav E seg0) as [[wv|] [txt|]]; run_miss;
    rewrite <- ?app_assoc; run_miss;
    try destruct (truthy txt && negb (endswith txt full_stop));
    match goal with |- context [res_map to_audio ?r] =>
      destruct (res_map to_audio r) end; reflexivity.
Qed.

Lemma stream_fetch_calls (w : World) c rest buff :
  calls (fst (stream_fetch E c rest buff w)) = calls w.
Proof.
  destruct rest as [|batch rest]; [reflexivity|].
  unfold stream_fetch, bind, lift.
  rewrite (res_map_ok _ _ _ to_chunk_ok). reflexivity.
Qed.

Lemma miss_calls (w : World) seg0 rest context :
  get_cache E (cache w) (seg0 :: rest) context = None ->
  backend_receives E w seg0 rest context (infer_seed seg0)
    (miss_kwargs E seg0 context (List.map text (seg0 :: rest)))
    (stream_kwargs E seg0 context (List.map text (seg0 :: rest))).
Proof.
  intros Hmiss. split.
  - rewrite (miss_batch _ _ _ _ Hmiss).
    match goal with |- context [res_map to_audio ?r] =>
      destruct (res_map to_audio r) end; reflexivity.
  - eexists _, _. split; [apply (miss_stream _ _ _ _ Hmiss)|].
    split; [reflexivity|].
    unfold gen_next, bind, log.
    match goal with |- context [stream_fetch E ?c ?r ?b ?w'] =>
      pose proof (stream_fetch_calls w' c r b) as Hc;
      destruct (stream_fetch E c r b w') as [w2 [v|e]] end;
      simpl in *; rewrite Hc; reflexivity.
Qed.

(** *** Cache hits *)

(** C1: when the cache holds a value for (segments, context), the
    non-streaming call returns that value and the streaming call returns
    a generator that yields that value once and then stops; the state is
    unchanged throughout, so no backend is created or invoked. *)
Theorem cache_hit_returns_cached (w : World) segments context cached :
  get_cache E (cache w) segments context = Some cached ->
  generate_batch_base E segments context false w = (w, Ok (RetList cached))
  /\ generate_batch_base E segments context true w
     = (w, Ok (RetGen (GCached cached)))
  /\ (forall w' : World,
        gen_next E (GCached cached) w' = (w', Ok (Some cached, GFinished))
        /\ gen_next E GFinished w' = (w', Ok (None, GFinished)))
  /\ (forall fuel (w' : World),
        drain E (S (S fuel)) (GCached cached) w'
        = (w', Ok (Some [(cached, deref w' cached)]))).
Proof.
  intros Hhit.
  unfold generate_batch_base, bind, cache_get. rewrite Hhit.
  repeat split; reflexivity.
Qed.

(** *** Interrupt *)

(** With no backend recorded as the current one, [interrupt] raises
    [AttributeError] (the attribute access on [None]) and changes
    nothing. *)
Lemma interrupt_without_backend
    (w : @World Sample Float SpkEmb SpkSmp CacheStore) :
  current_infer w = None -> interrupt w = (w, Raise AttributeError).
Proof. intros H. unfold interrupt. now rewrite H. Qed.

(** A cache hit leaves [current_infer] as it was, so the same holds
    after any number of cache-hit calls. *)
Lemma interrupt_after_cache_hit (w : World) segments context cached stream :
  current_infer w = None ->
  get_cache E (cache w) segments context = Some cached ->
  interrupt (fst (generate_batch_base E segments context stream w))
  = (w, Raise AttributeError).
Proof.
  intros Hc Hhit.
  unfold generate_batch_base, bind, cache_get. rewrite Hhit.
  destruct stream; simpl; unfold interrupt; now rewrite Hc.
Qed.

(** *** What the backend is given on a cache miss *)

Ltac conjuncts := repeat match goal with |- _ /\ _ => split end.

Lemma get_ref_wav_matched seg0 s r :
  spk seg0 = Some s ->
  get_ref s (emotion_is (emotion seg0)) = Some r ->
  get_ref_wav E seg0
  = (Some (snd (normalize_audio E
                  (wav_sr r, bytes_to_librosa_array E (wav r) (wav_sr r))
                  24000)),
     Some (ref_text r)).
Proof. intros Hs Hr. unfold get_ref_wav. now rewrite Hs, Hr. Qed.

Lemma endswith_appended (t m : pystr) : endswith (t ++ m) m = true.
Proof. apply PyStrFacts.endswith_spec. now exists t. Qed.

(** C2, as amended: on a cache miss with a non-empty batch, the backend
    is called under the first segment's seed with exactly ten keyword
    arguments (eleven when streaming, the chunk size of the context being
    added): the texts of all segments, and temperature, top-P, top-K, the
    three prompts (the second one wrapped when it is not blank) and the
    speaker reference of the first segment.  No repetition penalty and no
    token limit is passed.  Replacing the other segments by segments with
    the same texts gives the same call. *)
Theorem shared_parameters_from_first_segment (w : World) seg0 rest context :
  get_cache E (cache w) (seg0 :: rest) context = None ->
  exists kw kws,
    backend_receives E w seg0 rest context (infer_seed seg0) kw kws
    /\ kws = kw ++ [("stream_chunk_size"%string,
                     AInt (stream_chunk_size (infer_config context)))]
    /\ List.map fst kw
       = ["text"; "spk_emb"; "spk_smp"; "txt_smp"; "top_P"; "top_K";
          "temperature"; "prompt1"; "prompt2"; "prefix"]%string
    /\ kw_get "text" kw = Some (ATexts (List.map text (seg0 :: rest)))
    /\ kw_get "top_P" kw = Some (AFloat (top_p seg0))
    /\ kw_get "top_K" kw = Some (AInt (top_k seg0))
    /\ kw_get "temperature" kw = Some (AFloat (temperature seg0))
    /\ kw_get "prompt1" kw = Some (AStr (prompt1 seg0))
    /\ kw_get "prompt2" kw
       = Some (AStr (if truthy (strip (prompt2 seg0))
                     then prompt_prefix ++ prompt2 seg0 ++ prompt_suffix
                     else prompt2 seg0))
    /\ kw_get "prefix" kw = Some (AStr (prefix seg0))
    /\ kw_get "spk_smp" kw
       = Some (ASmp (option_map (sample_audio_speaker E)
                       (fst (get_ref_wav E seg0))))
    /\ kw_get "spk_emb" kw
       = Some (AEmb (match fst (get_ref_wav E seg0), spk seg0 with
                     | None, Some _ => get_spk_emb E seg0 context
                     | _, _ => None
                     end))
    /\ kw_get "txt_smp" kw
       = Some (AOptStr
                 (option_map
                    (fun t => if truthy t && negb (endswith t full_stop)
                              then t ++ full_stop else t)
                    (snd (get_ref_wav E seg0))))
    /\ (forall rest',
          List.map text rest' = List.map text rest ->
          get_cache E (cache w) (seg0 :: rest') context = None ->
          backend_receives E w seg0 rest' context (infer_seed seg0) kw kws).
Proof.
  intros Hmiss.
  exists (miss_kwargs E seg0 context (List.map text (seg0 :: rest))),
         (stream_kwargs E seg0 context (List.map text (seg0 :: rest))).
  split; [now apply miss_calls|].
  conjuncts; try reflexivity.
  - unfold miss_kwargs, infer_kwargs. cbn [kw_get String.eqb Ascii.eqb Bool.eqb].
    destruct (fst (get_ref_wav E seg0)), (spk seg0); reflexivity.
  - intros rest' Ht Hmiss'.
    pose proof (miss_calls w seg0 rest' context Hmiss') as H.
    cbn [List.map] in *. now rewrite Ht in H.
Qed.

(** C3, as amended: when the first segment's speaker has a reference
    for the segment's emotion, the speaker sample given to the backend is
    the encoding of that reference resampled to 24000 Hz, and the
    transcript given to the backend is the reference transcript, with
    U+3002 appended when the transcript is not empty and does not end
    with it; a non-empty transcript therefore ends with U+3002, an empty
    one is passed as it is. *)
Theorem reference_resampled_and_terminated
    (w : World) seg0 rest context s r :
  get_cache E (cache w) (seg0 :: rest) context = None ->
  spk seg0 = Some s ->
  get_ref s (emotion_is (emotion seg0)) = Some r ->
  exists kw kws t,
    backend_receives E w seg0 rest context (infer_seed seg0) kw kws
    /\ kw_get "spk_smp" kw
       = Some (ASmp (Some (sample_audio_speaker E
            (snd (normalize_audio E
                    (wav_sr r, bytes_to_librosa_array E (wav r) (wav_sr r))
                    24000)))))
    /\ kw_get "spk_smp" kws = kw_get "spk_smp" kw
    /\ kw_get "txt_smp" kw = Some (AOptStr (Some t))
    /\ kw_get "txt_smp" kws = Some (AOptStr (Some t))
    /\ (ref_text r <> [] -> endswith t full_stop = true)
    /\ (ref_text r <> [] -> endswith (ref_text r) full_stop = false ->
        t = ref_text r ++ full_stop)
    /\ (endswith (ref_text r) full_stop = true -> t = ref_text r)
    /\ (ref_text r = [] -> t = []).
Proof.
  intros Hmiss Hs Hr.
  exists (miss_kwargs E seg0 context (List.map text (seg0 :: rest))),
         (stream_kwargs E seg0 context (List.map text (seg0 :: rest))),
         (if truthy (ref_text r) && negb (endswith (ref_text r) full_stop)
          then ref_text r ++ full_stop else ref_text r).
  split; [now apply miss_calls|].
  unfold stream_kwargs, miss_kwargs, infer_kwargs.
  rewrite (get_ref_wav_matched _ _ _ Hs Hr).
  conjuncts; try reflexivity.
  - intros Hne. destruct (ref_text r) as [|c t] eqn:Ht; [congruence|].
    cbn [truthy andb].
    destruct (endswith (c :: t) full_stop) eqn:He; cbn [negb]; auto.
    apply endswith_appended.
  - intros Hne He. rewrite He.
    destruct (ref_text r); [congruence | reflexivity].
  - intros He. rewrite He. now rewrite andb_false_r.
  - intros Ht. now rewrite Ht.
Qed.

(** C4: on a cache miss the [prompt2] given to the backend is the first
    segment's [prompt2] between the two delimiter strings when that
    prompt is not empty after stripping whitespace, and the first
    segment's [prompt2] unchanged otherwise. *)
Theorem prompt2_wrapped_when_not_blank (w : World) seg0 rest context :
  get_cache E (cache w) (seg0 :: rest) context = None ->
  exists kw kws p,
    backend_receives E w seg0 rest context (infer_seed seg0) kw kws
    /\ kw_get "prompt2" kw = Some (AStr p)
    /\ kw_get "prompt2" kws = Some (AStr p)
    /\ (strip (prompt2 seg0) <> [] ->
        p = lit "[Ptts][Ptts][Ptts] " ++ prompt2 seg0
            ++ lit " [Stts][Ptts][Stts][Ptts][Stts]")
    /\ (strip (prompt2 seg0) = [] -> p = prompt2 seg0).
Proof.
  intros Hmiss.
  exists (miss_kwargs E seg0 context (List.map text (seg0 :: rest))),
         (stream_kwargs E seg0 context (List.map text (seg0 :: rest))),
         (if truthy (strip (prompt2 seg0))
          then prompt_prefix ++ prompt2 seg0 ++ prompt_suffix
          else prompt2 seg0).
  split; [now apply miss_calls|].
  conjuncts; try reflexivity.
  - intros Hne. destruct (strip (prompt2 seg0)); [congruence | reflexivity].
  - intros ->. reflexivity.
Qed.

(** C9: on a cache miss, in the streaming and in the non-streaming call
    alike, a first segment whose speaker has a reference for the
    segment's emotion gives the backend [spk_smp] set and [spk_emb]
    [None], whatever embedding the speaker has; the embedding is given
    only when no reference sample was derived. *)
Theorem reference_sample_precedes_embedding
    (w : World) seg0 rest context :
  get_cache E (cache w) (seg0 :: rest) context = None ->
  exists kw kws,
    backend_receives E w seg0 rest context (infer_seed seg0) kw kws
    /\ kw_get "spk_smp" kws = kw_get "spk_smp" kw
    /\ kw_get "spk_emb" kws = kw_get "spk_emb" kw
    /\ (forall s r,
          spk seg0 = Some s ->
          get_ref s (emotion_is (emotion seg0)) = Some r ->
          (exists smp, kw_get "spk_smp" kw = Some (ASmp (Some smp)))
          /\ kw_get "spk_emb" kw = Some (AEmb None))
    /\ (forall s,
          spk seg0 = Some s ->
          get_ref s (emotion_is (emotion seg0)) = None ->
          kw_get "spk_smp" kw = Some (ASmp None)
          /\ kw_get "spk_emb" kw
             = Some (AEmb (get_spk_emb E seg0 context)))
    /\ (spk seg0 = None ->
        kw_get "spk_smp" kw = Some (ASmp None)
        /\ kw_get "spk_emb" kw = Some (AEmb None)).
Proof.
  intros Hmiss.
  exists (miss_kwargs E seg0 context (List.map text (seg0 :: rest))),
         (stream_kwargs E seg0 context (List.map text (seg0 :: rest))).
  split; [now apply miss_calls|].
  split; [reflexivity|]. split; [reflexivity|].
  unfold miss_kwargs, infer_kwargs. conjuncts.
  - intros s r Hs Hr. rewrite (get_ref_wav_matched _ _ _ Hs Hr).
    split; [eexists|]; reflexivity.
  - intros s Hs Hr. unfold get_ref_wav. rewrite Hs, Hr.
    split; reflexivity.
  - intros Hs. unfold get_ref_wav. rewrite Hs. split; reflexivity.
Qed.

(** *** Backend results *)

Lemma lookup_map {A B} (f : A -> B) (l : list A) (i : nat) :
  List.map f l !! i = option_map f (l !! i).
Proof.
  revert i; induction l as [|x l IH]; intros [|i]; simpl; auto.
Qed.

Lemma deref_alloc h (l : list (Z * list Sample)) (c : CacheStore)
    ch ci n (cs : list (@Call Sample Float SpkEmb SpkSmp)) :
  deref {| heap := h ++ [l]; cache := c; chat := ch; current_infer := ci;
           infers := n; calls := cs |} (length h) = l.
Proof. unfold deref. simpl. now rewrite list_lookup_middle. Qed.

Lemma to_audio_ok (data : option (list (list Sample))) :
  data = None \/ (exists c cs, data = Some (c :: cs)) ->
  to_audio data
  = Ok (sr, match data with None => [] | Some d => hd [] d end).
Proof. intros [-> | (c & cs & ->)]; reflexivity. Qed.




(** *** The streaming loop *)

Local Abbreviation W := (@World Sample Float SpkEmb SpkSmp CacheStore).
Local Abbreviation MW := (@M Sample Float SpkEmb SpkSmp CacheStore).

Lemma bind_ok {A B} (m : MW A) (k : A -> MW B) (w w' : W) a :
  m w = (w', Ok a) -> bind m k w = k a w'.
Proof. intros H. unfold bind. now rewrite H. Qed.

Lemma bind_bind_ok {A B C} (m : MW A) (f : A -> MW B) (g : B -> MW C)
    (w w' : W) a :
  m w = (w', Ok a) -> bind (bind m f) g w = bind (f a) g w'.
Proof. intros H. unfold bind. now rewrite H. Qed.

Lemma acc_from_length rs : forall i (l : list (Z * list Sample)),
  length (acc_from i rs l) = length l.
Proof.
  induction rs as [|data rs IH]; intros i l; simpl; [reflexivity|].
  destruct (l !! i) as [[s before]|]; [|reflexivity].
  now rewrite IH, length_insert.
Qed.

(** Index [j] of the buffer gets, appended, the entry of [rs] that the
    loop pairs with it. *)
Lemma acc_from_lookup rs : forall i (l : list (Z * list Sample)) j,
  (i + length rs <= length l)%nat ->
  acc_from i rs l !! j
  = option_map
      (fun item =>
         (fst item,
          snd item ++ (if (i <=? j)%nat
                       then default [] (rs !! (j - i)%nat) else [])))
      (l !! j).
Proof.
  induction rs as [|data rs IH]; intros i l j Hlen; simpl.
  - destruct (l !! j) as [[s d]|]; simpl; [|reflexivity].
    destruct (i <=? j)%nat; now rewrite app_nil_r.
  - simpl in Hlen.
    destruct (l !! i) as [[s before]|] eqn:Hi;
      [|apply lookup_ge_None in Hi; lia].
    rewrite IH by (rewrite length_insert; lia).
    destruct (decide (i = j)) as [<-|Hne].
    + rewrite list_lookup_insert_eq by lia. rewrite Hi.
      cbn [option_map fst snd]. rewrite Nat.leb_refl, Nat.sub_diag.
      replace (S i <=? i)%nat with false
        by (symmetry; apply Nat.leb_gt; lia).
      cbn. now rewrite app_nil_r.
    + rewrite list_lookup_insert_ne by assumption.
      destruct (l !! j) as [[s' d]|]; cbn [option_map fst snd];
        [|reflexivity].
      destruct (Nat.leb_spec (S i) j) as [H1|H1];
        destruct (Nat.leb_spec i j) as [H2|H2]; try lia; [|reflexivity].
      replace (j - i)%nat with (S (j - S i)) by lia. reflexivity.
Qed.

Lemma accumulate_ok results : forall (w : W) b i l,
  heap w !! b = Some l ->
  (i + length results <= length l)%nat ->
  accumulate b i results w
  = ({| heap := <[b := acc_from i results l]> (heap w); cache := cache w;
        chat := chat w; current_infer := current_infer w;
        infers := infers w; calls := calls w |}, Ok tt).
Proof.
  induction results as [|data rs IH]; intros w b i l Hb Hlen; simpl.
  - unfold ret. rewrite list_insert_id by assumption. now destruct w.
  - simpl in Hlen.
    destruct (l !! i) as [[s before]|] eqn:Hi;
      [|apply lookup_ge_None in Hi; lia].
    unfold bind at 1. unfold read_list, deref. rewrite Hb. simpl.
    unfold bind at 1. unfold lift, getitem. rewrite Hi.
    unfold bind, write_list.
    rewrite (IH _ b (S i) (<[i := (s, before ++ data)]> l)); simpl.
    + now rewrite list_insert_insert_eq.
    + apply list_lookup_insert_eq. now apply lookup_lt_Some in Hb.
    + rewrite length_insert. lia.
Qed.

Lemma accumulated_spec batches : forall (l : list (Z * list Sample)),
  Forall (fun batch => length batch = length l) batches ->
  length (accumulated l batches) = length l
  /\ forall j,
       accumulated l batches !! j
       = option_map
           (fun item =>
              (fst item, snd item ++ concat (List.map (chunk_at j) batches)))
           (l !! j).
Proof.
  induction batches as [|batch bs IH]; intros l Hall.
  - split; [reflexivity|]. intros j. simpl.
    destruct (l !! j) as [[s d]|]; simpl; [|reflexivity].
    now rewrite app_nil_r.
  - inversion Hall as [|? ? Hb Hbs]; subst.
    unfold accumulated. simpl. fold (accumulated (acc_from 0 (List.map chunk batch) l) bs).
    destruct (IH (acc_from 0 (List.map chunk batch) l)) as [Hl Hj].
    { rewrite acc_from_length. exact Hbs. }
    split; [now rewrite Hl, acc_from_length|].
    intros j. rewrite Hj, acc_from_lookup by (rewrite length_map; lia).
    simpl. rewrite Nat.sub_0_r.
    destruct (l !! j) as [[s d]|]; simpl; [|reflexivity].
    unfold chunk_at at 2. now rewrite app_assoc.
Qed.

Lemma stream_fetch_cons (w : W) c batch rest buff :
  stream_fetch E c (batch :: rest) buff w
  = ({| heap := heap w ++ [yielded batch]; cache := cache w; chat := chat w;
        current_infer := current_infer w; infers := infers w;
        calls := calls w |},
     Ok (Some (length (heap w)),
         GYielded c (List.map chunk batch) (length (heap w)) rest buff)).
Proof.
  unfold stream_fetch, bind, lift, alloc, ret.
  rewrite (res_map_ok _ _ _ to_chunk_ok). unfold yielded.
  now rewrite map_map.
Qed.

Lemma consume_yield d a (g' : @Gen Sample Float SpkEmb SpkSmp AudioBytes)
    (w : W) :
  consume_result d (Some a, g') w
  = match d g' w with
    | (w', Ok later) => (w', Ok (option_map (cons (a, deref w a)) later))
    | (w', Raise e) => (w', Raise e)
    end.
Proof. reflexivity. Qed.

(** From the head of the outer loop with buffer [b] holding [acc]: the
    consumer receives a copy of every remaining partial batch, the buffer
    ends as [accumulated acc rest], and the cache is written with the
    buffer's address. *)
Lemma drain_fetch rest : forall fuel c b (w : W) acc,
  heap w !! b = Some acc ->
  Forall (fun batch => length batch = length acc) rest ->
  (length rest <= fuel)%nat ->
  exists items w',
    bind (stream_fetch E c rest (Some b)) (consume_result (drain E fuel)) w
    = (w', Ok (Some items))
    /\ List.map snd items = List.map yielded rest
    /\ heap w' !! b = Some (accumulated acc rest)
    /\ cache w'
       = set_cache E (cache w) (cl_segments c) (cl_context c) (Some b).
Proof.
  induction rest as [|batch rest IH]; intros fuel c b w acc Hb Hall Hfuel.
  - eexists [], _. split; [reflexivity|]. simpl. auto.
  - destruct fuel as [|fuel]; [simpl in Hfuel; lia|].
    inversion Hall as [|? ? Hlen Hrest]; subst.
    pose proof (lookup_lt_Some _ _ _ Hb) as Hlt.
    set (w1 := {| heap := heap w ++ [yielded batch]; cache := cache w;
                  chat := chat w; current_infer := current_infer w;
                  infers := infers w; calls := calls w |}).
    assert (Hb1 : heap w1 !! b = Some acc)
      by (simpl; now rewrite lookup_app_l).
    pose proof (accumulate_ok (List.map chunk batch) w1 b 0 acc Hb1) as Hacc.
    rewrite length_map in Hacc. specialize (Hacc ltac:(lia)).
    match type of Hacc with _ = (?w', _) => set (w2 := w') in * end.
    destruct (IH fuel c b w2 (acc_from 0 (List.map chunk batch) acc))
      as (items & w' & Hrun & Hitems & Hbuf & Hcache).
    { simpl. apply list_lookup_insert_eq.
      rewrite length_app. simpl. lia. }
    { rewrite acc_from_length. exact Hrest. }
    { simpl in Hfuel. lia. }
    exists ((length (heap w), yielded batch) :: items), w'.
    split; [|split; [|split]].
    + rewrite (bind_ok _ _ _ _ _ (stream_fetch_cons w c batch rest (Some b))).
      fold w1. rewrite consume_yield.
      change (drain E (S fuel)
                (GYielded c (List.map chunk batch) (length (heap w)) rest
                   (Some b)) w1)
        with (bind (bind (accumulate b 0 (List.map chunk batch))
                      (fun _ => stream_fetch E c rest (Some b)))
                (consume_result (drain E fuel)) w1).
      rewrite (bind_bind_ok _ _ _ _ _ _ Hacc), Hrun. simpl.
      unfold w1. now rewrite deref_alloc.
    + simpl. now rewrite Hitems.
    + exact Hbuf.
    + exact Hcache.
Qed.

Lemma reconstruct_yielded batches i :
  batches <> [] ->
  Forall (fun batch => (i < length batch)%nat) batches ->
  reconstruct i (List.map (@yielded Sample) batches)
  = Ok (concat (List.map (chunk_at i) batches)).
Proof.
  intros Hne Hall. unfold reconstruct.
  rewrite (res_map_Forall _ (fun l => default (sr, []) (l !! i))).
  - assert (Hs : forall batch : list (option (list (list Sample))),
               snd (default (sr, []) (yielded batch !! i)) = chunk_at i batch).
    { intros batch. unfold chunk_at, yielded. rewrite !lookup_map.
      now destruct (batch !! i). }
    destruct batches as [|batch bs]; [congruence|]. simpl.
    rewrite Hs, !map_map. do 3 f_equal. apply map_ext. intros a. apply Hs.
  - apply Forall_map. eapply Forall_impl; [exact Hall|].
    intros batch Hlt. unfold getitem, yielded. rewrite lookup_map.
    destruct (lookup_lt_is_Some_2 batch i Hlt) as [d ->]. reflexivity.
Qed.

(** C6, as amended: on a streaming cache miss whose backend stream has at
    least one partial batch, every batch with one entry per segment, a
    consumer that exhausts the generator receives one list per partial
    batch ([None] and element-free entries as empty samples, the first
    channel otherwise), and when the generator stops the cache has been
    written for (segments, context) with a list that holds, for every
    segment index, 24000 paired with the concatenation in yield order of
    the chunks yielded for that index.  The cache is not written before. *)
Theorem streamed_batches_are_cached (w : W) seg0 rest context b0 bs fuel :
  get_cache E (cache w) (seg0 :: rest) context = None ->
  generate_audio_stream E (infer_seed seg0)
    (stream_kwargs E seg0 context (List.map text (seg0 :: rest)))
  = b0 :: bs ->
  Forall (fun batch => length batch = length (seg0 :: rest)) (b0 :: bs) ->
  (length (b0 :: bs) < fuel)%nat ->
  exists w1 g w2 items,
    generate_batch_base E (seg0 :: rest) context true w = (w1, Ok (RetGen g))
    /\ cache w1 = cache w
    /\ drain E fuel g w1 = (w2, Ok (Some items))
    /\ List.map snd items = List.map yielded (b0 :: bs)
    /\ cache w2
       = set_cache E (cache w) (seg0 :: rest) context
           (Some (length (heap w)))
    /\ length (deref w2 (length (heap w))) = length (seg0 :: rest)
    /\ forall i, (i < length (seg0 :: rest))%nat ->
         exists v,
           reconstruct i (List.map snd items) = Ok v
           /\ deref w2 (length (heap w)) !! i = Some (24000, v).
Proof.
  intros Hmiss Hs Hall Hfuel.
  inversion Hall as [|? ? Hb0 Hbs]; subst.
  destruct fuel as [|[|fuel]]; simpl in Hfuel; try lia.
  rewrite (miss_stream _ _ _ _ Hmiss).
  match goal with |- context [GStart ?c] => set (cl := c) end.
  match goal with |- context [(?w', Ok (RetGen _))] => set (w1 := w') end.
  set (a0 := length (heap w)).
  set (wA := {| heap := heap w ++ [yielded b0]; cache := cache w;
                chat := true; current_infer := Some (infers w);
                infers := S (infers w);
                calls := calls w1
                         ++ [CGenerateAudioStream (cl_infer cl) (cl_seed cl)
                               (cl_kwargs cl)] |}).
  assert (Hnext : gen_next E (GStart cl) w1
                  = (wA, Ok (Some a0, GYielded cl (List.map chunk b0) a0 bs None))).
  { unfold gen_next, bind, log. subst wA a0 w1 cl.
    cbn [cl_seed cl_kwargs cl_infer].
    rewrite Hs, stream_fetch_cons. reflexivity. }
  destruct (drain_fetch bs fuel cl a0 wA (yielded b0))
    as (items & w2 & Hrun & Hitems & Hbuf & Hcache).
  { simpl. now apply list_lookup_middle. }
  { unfold yielded. rewrite length_map, Hb0. exact Hbs. }
  { lia. }
  exists w1, (GStart cl), w2, ((a0, yielded b0) :: items).
  assert (Hlen : length (accumulated (yielded b0) bs) = length b0
                 /\ forall j,
                      accumulated (yielded b0) bs !! j
                      = option_map
                          (fun item =>
                             (fst item,
                              snd item
                              ++ concat (List.map (chunk_at j) bs)))
                          (yielded b0 !! j)).
  { destruct (accumulated_spec bs (yielded b0)) as [H1 H2].
    - unfold yielded. rewrite length_map, Hb0. exact Hbs.
    - split; [|exact H2]. rewrite H1. unfold yielded. apply length_map. }
  destruct Hlen as [Hlen Hlook].
  assert (Hd : deref w2 a0 = accumulated (yielded b0) bs)
    by (unfold deref; now rewrite Hbuf).
  conjuncts.
  - reflexivity.
  - reflexivity.
  - change (drain E (S (S fuel)) (GStart cl) w1)
      with (bind (gen_next E (GStart cl))
              (consume_result (drain E (S fuel))) w1).
    rewrite (bind_ok _ _ _ _ _ Hnext), consume_yield.
    change (drain E (S fuel) (GYielded cl (List.map chunk b0) a0 bs None) wA)
      with (bind (stream_fetch E cl bs (Some a0))
              (consume_result (drain E fuel)) wA).
    rewrite Hrun. simpl. unfold wA, a0. now rewrite deref_alloc.
  - simpl. now rewrite Hitems.
  - exact Hcache.
  - rewrite Hd, Hlen. exact Hb0.
  - intros i Hi. exists (concat (List.map (chunk_at i) (b0 :: bs))). split.
    + cbn [List.map snd]. rewrite Hitems.
      apply (reconstruct_yielded (b0 :: bs) i); [discriminate|].
      eapply Forall_impl; [exact Hall|]. intros batch Hb. simpl in *. lia.
    + rewrite Hd, Hlook. unfold yielded at 1. rewrite lookup_map.
      destruct (lookup_lt_is_Some_2 b0 i ltac:(simpl in *; lia)) as [d Hdi].
      rewrite Hdi. cbn [option_map fst snd List.map concat].
      unfold chunk_at at 2. rewrite lookup_map, Hdi. reflexivity.
Qed.

(** *** Further properties of the generator *)

Lemma accumulate_frame rs : forall (w : W) b i,
  cache (fst (accumulate b i rs w)) = cache w
  /\ chat (fst (accumulate b i rs w)) = chat w
  /\ current_infer (fst (accumulate b i rs w)) = current_infer w
  /\ infers (fst (accumulate b i rs w)) = infers w
  /\ calls (fst (accumulate b i rs w)) = calls w.
Proof.
  induction rs as [|data rs IH]; intros w b i; simpl; [now conjuncts|].
  unfold bind, read_list, lift, getitem, write_list.
  destruct (deref w b !! i) as [[s before]|]; cbn [fst]; [|now conjuncts].
  match goal with |- context [accumulate b (S i) rs ?w'] =>
    destruct (IH w' b (S i)) as (H1 & H2 & H3 & H4 & H5);
    destruct (accumulate b (S i) rs w') as [w2 [[]|e]] end;
    simpl in *; now conjuncts.
Qed.

Lemma stream_fetch_frame (w : W) c rest buff :
  chat (fst (stream_fetch E c rest buff w)) = chat w
  /\ current_infer (fst (stream_fetch E c rest buff w)) = current_infer w
  /\ infers (fst (stream_fetch E c rest buff w)) = infers w.
Proof.
  destruct rest as [|batch rest]; [now conjuncts|].
  rewrite stream_fetch_cons. now conjuncts.
Qed.

Lemma gen_next_frame (g : Gen) (w : W) :
  chat (fst (gen_next E g w)) = chat w
  /\ current_infer (fst (gen_next E g w)) = current_infer w
  /\ infers (fst (gen_next E g w)) = infers w.
Proof.
  destruct g as [cached|c|c results a rest [b|]|]; simpl;
    try (now conjuncts).
  - unfold bind, log.
    match goal with |- context [stream_fetch E ?c ?r ?b ?w'] =>
      destruct (stream_fetch_frame w' c r b) as (H1 & H2 & H3);
      destruct (stream_fetch E c r b w') as [w2 [v|e]] end;
      simpl in *; now conjuncts.
  - unfold bind.
    destruct (accumulate_frame results w b 0) as (_ & H1 & H2 & H3 & _).
    destruct (accumulate b 0 results w) as [w1 [[]|e]]; simpl in *;
      [|now conjuncts].
    destruct (stream_fetch_frame w1 c rest (Some b)) as (H4 & H5 & H6).
    destruct (stream_fetch E c rest (Some b) w1) as [w2 [v|e]];
      simpl in *; conjuncts; congruence.
  - apply stream_fetch_frame.
Qed.

(** A call of [next] that does not end in [StopIteration] leaves the
    cache as it is. *)
Lemma gen_next_cache (g : Gen) (w w' : W) r :
  gen_next E g w = (w', r) ->
  (forall g', r <> Ok (None, g')) ->
  cache w' = cache w.
Proof.
  assert (Hf : forall c rest buff (w1 w2 : W) r1,
             stream_fetch E c rest buff w1 = (w2, r1) ->
             (forall g', r1 <> Ok (None, g')) -> cache w2 = cache w1).
  { intros c [|batch rest] buff w1 w2 r1.
    - unfold stream_fetch, bind, cache_set, ret. intros [= <- <-] Hr.
      now destruct (Hr GFinished).
    - rewrite stream_fetch_cons. now intros [= <- <-]. }
  destruct g as [cached|c|c results a rest [b|]|]; simpl.
  - now intros [= <- <-].
  - unfold bind, log. intros H Hr. now apply Hf in H.
  - unfold bind.
    destruct (accumulate_frame results w b 0) as (Hc & _).
    destruct (accumulate b 0 results w) as [w1 [[]|e]]; simpl in Hc.
    + intros H Hr. apply Hf in H; congruence.
    + now intros [= <- <-].
  - intros H Hr. now apply Hf in H.
  - intros [= <- <-] Hr. now destruct (Hr GFinished).
Qed.

Lemma drain_cache fuel : forall (g : Gen) (w w' : W) r,
  drain E fuel g w = (w', r) ->
  (forall items, r <> Ok (Some items)) ->
  cache w' = cache w.
Proof.
  induction fuel as [|fuel IH]; intros g w w' r.
  - simpl. now intros [= <- <-].
  - simpl. unfold bind at 1.
    destruct (gen_next E g w) as [w1 r1] eqn:Hn.
    destruct r1 as [[[a|] g']|e].
    + pose proof (gen_next_cache g _ _ _ Hn ltac:(discriminate)) as Hc.
      rewrite consume_yield.
      destruct (drain E fuel g' w1) as [w2 r2] eqn:Hd.
      destruct r2 as [later|e].
      * intros [= <- <-] Hr. rewrite <- Hc.
        apply (IH _ _ _ _ Hd). intros items [= ->].
        now destruct (Hr _ eq_refl).
      * intros [= <- <-] _. rewrite <- Hc.
        apply (IH _ _ _ _ Hd). discriminate.
    + intros [= <- <-] Hr. now destruct (Hr []).
    + intros [= <- <-] _.
      apply (gen_next_cache g _ _ _ Hn). discriminate.
Qed.

(** X1: The cache is written only when the consumer sees the generator stop:
    a consumer that gives up early, or that is stopped by an exception of
    the generator, leaves the cache as it was before the first [next]. *)
Theorem unfinished_stream_not_cached (fuel : nat) (g : Gen) (w w' : W) r :
  drain E fuel g w = (w', r) ->
  (forall items, r <> Ok (Some items)) ->
  cache w' = cache w.
Proof. apply drain_cache. Qed.

Lemma miss_state (w : W) segments context stream :
  get_cache E (cache w) segments context = None ->
  chat (fst (generate_batch_base E segments context stream w)) = true
  /\ current_infer (fst (generate_batch_base E segments context stream w))
     = Some (infers w)
  /\ infers (fst (generate_batch_base E segments context stream w))
     = S (infers w).
Proof.
  intros Hmiss. destruct segments as [|seg0 rest].
  - unfold generate_batch_base, bind, cache_get. rewrite Hmiss.
    now conjuncts.
  - destruct stream.
    + rewrite (miss_stream _ _ _ _ Hmiss). now conjuncts.
    + rewrite (miss_batch _ _ _ _ Hmiss).
      match goal with |- context [res_map to_audio ?r] =>
        destruct (res_map to_audio r) end; now conjuncts.
Qed.

Lemma start_fails (w : W) segments context stream s e :
  get_cache E (cache w) segments context = None ->
  s = LoadRaises e \/ s = InferRaises e ->
  generate_batch_base_with E s segments context stream w
  = ({| heap := heap w; cache := cache w;
        chat := match s with LoadRaises _ => chat w | _ => true end;
        current_infer := current_infer w; infers := infers w;
        calls := calls w ++ [CLoad] |}, Raise e).
Proof.
  intros Hmiss Hs. unfold generate_batch_base_with, bind, cache_get.
  rewrite Hmiss. destruct Hs as [-> | ->]; reflexivity.
Qed.

(** X2: After a call that missed the cache and created its backend,
    whatever its batch, its mode and its outcome from there on, the model
    is loaded and [interrupt] succeeds: it is passed to the backend object
    that call created.  When [load_chat_tts] or [ChatTTSInfer] raises
    instead, the exception leaves [generate_batch_base] before
    [current_infer] is assigned: the recorded backend and the cache are
    those of before the call, so [interrupt] raises [AttributeError] when
    no earlier call recorded a backend, and goes to the earlier backend
    otherwise. *)
Theorem interrupt_after_miss (w : W) segments context stream
    (s : Startup) :
  get_cache E (cache w) segments context = None ->
  match s with
  | Started =>
      generate_batch_base_with E Started segments context stream w
      = generate_batch_base E segments context stream w
      /\ exists w',
           interrupt (fst (generate_batch_base_with E Started segments
                             context stream w))
           = (w', Ok tt)
           /\ calls w'
              = calls (fst (generate_batch_base_with E Started segments
                              context stream w))
                ++ [CInterrupt (infers w)]
           /\ is_loaded w' = true
  | LoadRaises e | InferRaises e =>
      exists w1,
        generate_batch_base_with E s segments context stream w
        = (w1, Raise e)
        /\ current_infer w1 = current_infer w
        /\ cache w1 = cache w
        /\ (current_infer w = None ->
            interrupt w1 = (w1, Raise AttributeError))
        /\ (forall infer,
              current_infer w = Some infer ->
              exists w',
                interrupt w1 = (w', Ok tt)
                /\ calls w' = calls w1 ++ [CInterrupt infer])
  end.
Proof.
  intros Hmiss.
  assert (Hfail : forall e,
             s = LoadRaises e \/ s = InferRaises e ->
             exists w1,
               generate_batch_base_with E s segments context stream w
               = (w1, Raise e)
               /\ current_infer w1 = current_infer w
               /\ cache w1 = cache w
               /\ (current_infer w = None ->
                   interrupt w1 = (w1, Raise AttributeError))
               /\ (forall infer,
                     current_infer w = Some infer ->
                     exists w',
                       interrupt w1 = (w', Ok tt)
                       /\ calls w' = calls w1 ++ [CInterrupt infer])).
  { intros e Hs. eexists. split; [now apply start_fails|].
    conjuncts; try reflexivity.
    - intros Hn. unfold interrupt. cbn [current_infer]. now rewrite Hn.
    - intros infer Hi. unfold interrupt, log. cbn [current_infer].
      rewrite Hi. eexists. split; reflexivity. }
  destruct s as [|e|e]; [|apply Hfail; now left | apply Hfail; now right].
  split; [reflexivity|].
  change (generate_batch_base_with E Started segments context stream w)
    with (generate_batch_base E segments context stream w).
  destruct (miss_state w segments context stream Hmiss) as (Hc & Hi & _).
  unfold interrupt, log. rewrite Hi.
  eexists. split; [reflexivity|]. split; [reflexivity | exact Hc].
Qed.

(** X3: Once a backend has been recorded, no operation of the model clears
    it: generation calls, [next] on a generator, a consumer's loop,
    [interrupt] and [unload] all leave [current_infer] set, so [interrupt]
    never again meets [None]. *)
Theorem current_infer_stays_set (w : W) :
  is_Some (current_infer w) ->
  (forall segments context stream,
      is_Some (current_infer
                 (fst (generate_batch_base E segments context stream w))))
  /\ (forall g, is_Some (current_infer (fst (gen_next E g w))))
  /\ is_Some (current_infer (fst (interrupt w)))
  /\ is_Some (current_infer (fst (unload w))).
Proof.
  intros Hset. conjuncts.
  - intros segments context stream.
    destruct (get_cache E (cache w) segments context) as [cached|] eqn:Hc.
    + unfold generate_batch_base, bind, cache_get. rewrite Hc.
      now destruct stream.
    + destruct (miss_state w segments context stream Hc) as (_ & -> & _).
      now eexists.
  - intros g. now destruct (gen_next_frame g w) as (_ & -> & _).
  - unfold interrupt. destruct (current_infer w) eqn:Hc.
    + simpl. rewrite Hc. now eexists.
    + simpl. now rewrite Hc.
  - exact Hset.
Qed.

(** X4: An empty batch: on a cache hit the cached value is returned as for
    any batch; on a miss [segments[0]] raises [IndexError], after the
    model was loaded and a backend was created and recorded, and before
    anything is generated or cached. *)
Theorem empty_batch (w : W) context stream :
  (forall cached,
      get_cache E (cache w) [] context = Some cached ->
      generate_batch_base E [] context stream w
      = (w, Ok (if stream then RetGen (GCached cached) else RetList cached)))
  /\ (get_cache E (cache w) [] context = None ->
      generate_batch_base E [] context stream w
      = ({| heap := heap w; cache := cache w; chat := true;
            current_infer := Some (infers w); infers := S (infers w);
            calls := calls w ++ [CLoad; CNewInfer (infers w)] |},
         Raise IndexError)).
Proof.
  split.
  - intros cached Hc. unfold generate_batch_base, bind, cache_get.
    rewrite Hc. now destruct stream.
  - intros Hc. unfold generate_batch_base, bind, cache_get.
    rewrite Hc. cbn. now rewrite <- app_assoc.
Qed.

Lemma res_map_to_audio_raises (l : list (option (list (list Sample)))) :
  In (Some []) l -> res_map to_audio l = Raise IndexError.
Proof.
  induction l as [|[[|c cs]|] l IH]; simpl; intros Hin.
  - destruct Hin.
  - reflexivity.
  - destruct Hin as [H|H]; [discriminate|]. now rewrite IH.
  - destruct Hin as [H|H]; [discriminate|]. now rewrite IH.
Qed.

(** X5: In the non-streaming call a backend result without any channel is
    fatal for the whole batch: [data[0]] raises [IndexError] after the
    backend was invoked, no list is built and the cache is not written. *)
Theorem channelless_result_raises (w : W) seg0 rest context :
  get_cache E (cache w) (seg0 :: rest) context = None ->
  In (Some [])
     (generate_audio E (infer_seed seg0)
        (miss_kwargs E seg0 context (List.map text (seg0 :: rest)))) ->
  exists w',
    generate_batch_base E (seg0 :: rest) context false w
    = (w', Raise IndexError)
    /\ cache w' = cache w
    /\ heap w' = heap w
    /\ calls w'
       = miss_prelude E w seg0
         ++ [CGenerateAudio (infers w) (infer_seed seg0)
               (miss_kwargs E seg0 context (List.map text (seg0 :: rest)))].
Proof.
  intros Hmiss Hin. rewrite (miss_batch _ _ _ _ Hmiss).
  rewrite (res_map_to_audio_raises _ Hin).
  eexists. split; [reflexivity|]. now conjuncts.
Qed.

(** X6: When the cache returns what was stored under a key, a non-streaming
    call that missed is followed by hits: the same call again, streaming
    or not, returns the very list of the first call, and leaves the state
    (backend count, call log, object store) unchanged. *)
Theorem second_call_hits (w : W) seg0 rest context :
  (forall c value,
      get_cache E (set_cache E c (seg0 :: rest) context value)
        (seg0 :: rest) context = value) ->
  get_cache E (cache w) (seg0 :: rest) context = None ->
  Forall (fun data => data = None \/ exists c cs, data = Some (c :: cs))
    (generate_audio E (infer_seed seg0)
       (miss_kwargs E seg0 context (List.map text (seg0 :: rest)))) ->
  exists w1 a,
    generate_batch_base E (seg0 :: rest) context false w
    = (w1, Ok (RetList a))
    /\ generate_batch_base E (seg0 :: rest) context false w1
       = (w1, Ok (RetList a))
    /\ generate_batch_base E (seg0 :: rest) context true w1
       = (w1, Ok (RetGen (GCached a)))
    /\ gen_next E (GCached a) w1 = (w1, Ok (Some a, GFinished)).
Proof.
  intros Hlaw Hmiss Hres. rewrite (miss_batch _ _ _ _ Hmiss).
  rewrite (res_map_Forall to_audio
             (fun data => (sr, match data with
                               | None => []
                               | Some d => hd [] d
                               end)))
    by (eapply Forall_impl; [exact Hres|]; intros d Hd; now apply to_audio_ok).
  eexists _, _. split; [reflexivity|].
  unfold generate_batch_base, bind, cache_get. cbn [cache].
  rewrite Hlaw. now conjuncts.
Qed.

Lemma read_seq (r : list (list (Z * list Sample))) :
  forall h x b,
    (b < length h)%nat ->
    List.map (fun a => default [] (<[b := x]> (h ++ r) !! a))
      (seq (length h) (length r))
    = r.
Proof.
  induction r as [|y r IH]; intros h x b Hb; [reflexivity|].
  cbn [length seq List.map]. f_equal.
  - rewrite list_lookup_insert_ne by lia.
    now rewrite list_lookup_middle.
  - rewrite (cons_middle y h r), app_assoc.
    replace (S (length h)) with (length (h ++ [y]))
      by (rewrite length_app; simpl; lia).
    apply IH. rewrite length_app. lia.
Qed.

(** The loop from the head, with the object store it leaves: every
    remaining partial batch is a new list at the next free address, and
    only the buffer is updated. *)
Lemma drain_fetch_heap rest : forall fuel c b (w : W) acc,
  heap w !! b = Some acc ->
  Forall (fun batch => length batch = length acc) rest ->
  (length rest <= fuel)%nat ->
  exists items w',
    bind (stream_fetch E c rest (Some b)) (consume_result (drain E fuel)) w
    = (w', Ok (Some items))
    /\ items = combine (seq (length (heap w)) (length rest))
                 (List.map yielded rest)
    /\ heap w'
       = <[b := accumulated acc rest]> (heap w ++ List.map yielded rest)
    /\ cache w'
       = set_cache E (cache w) (cl_segments c) (cl_context c) (Some b).
Proof.
  induction rest as [|batch rest IH]; intros fuel c b w acc Hb Hall Hfuel.
  - eexists [], _. split; [reflexivity|]. simpl.
    rewrite app_nil_r, list_insert_id by assumption. auto.
  - destruct fuel as [|fuel]; [simpl in Hfuel; lia|].
    inversion Hall as [|? ? Hlen Hrest]; subst.
    pose proof (lookup_lt_Some _ _ _ Hb) as Hlt.
    set (w1 := {| heap := heap w ++ [yielded batch]; cache := cache w;
                  chat := chat w; current_infer := current_infer w;
                  infers := infers w; calls := calls w |}).
    assert (Hb1 : heap w1 !! b = Some acc)
      by (simpl; now rewrite lookup_app_l).
    pose proof (accumulate_ok (List.map chunk batch) w1 b 0 acc Hb1) as Hacc.
    rewrite length_map in Hacc. specialize (Hacc ltac:(lia)).
    match type of Hacc with _ = (?w', _) => set (w2 := w') in * end.
    destruct (IH fuel c b w2 (acc_from 0 (List.map chunk batch) acc))
      as (items & w' & Hrun & Hitems & Hheap & Hcache).
    { simpl. apply list_lookup_insert_eq.
      rewrite length_app. simpl. lia. }
    { rewrite acc_from_length. exact Hrest. }
    { simpl in Hfuel. lia. }
    exists ((length (heap w), yielded batch) :: items), w'.
    split; [|split; [|split]].
    + rewrite (bind_ok _ _ _ _ _ (stream_fetch_cons w c batch rest (Some b))).
      fold w1. rewrite consume_yield.
      change (drain E (S fuel)
                (GYielded c (List.map chunk batch) (length (heap w)) rest
                   (Some b)) w1)
        with (bind (bind (accumulate b 0 (List.map chunk batch))
                      (fun _ => stream_fetch E c rest (Some b)))
                (consume_result (drain E fuel)) w1).
      rewrite (bind_bind_ok _ _ _ _ _ _ Hacc), Hrun. simpl.
      unfold w1. now rewrite deref_alloc.
    + rewrite Hitems. cbn [length seq List.map combine]. do 3 f_equal.
      unfold w2. simpl. rewrite length_insert. rewrite length_app.
      simpl. lia.
    + rewrite Hheap. unfold w2, w1. cbn [heap List.map].
      rewrite <- insert_app_l by (rewrite length_app; simpl; lia).
      rewrite list_insert_insert_eq, <- app_assoc. reflexivity.
    + exact Hcache.
Qed.

Lemma map_fst_combine {A B} (l : list A) : forall k : list B,
  length l = length k -> List.map fst (combine l k) = l.
Proof.
  induction l as [|x l IH]; intros [|y k] H; simpl in *; try easy.
  f_equal. apply IH. lia.
Qed.

Lemma map_snd_combine {A B} (l : list A) : forall k : list B,
  length l = length k -> List.map snd (combine l k) = k.
Proof.
  induction l as [|x l IH]; intros [|y k] H; simpl in *; try easy.
  f_equal. apply IH. lia.
Qed.

(** The whole streaming run on a cache miss, with the object store and
    the cache it leaves. *)
Lemma stream_run (w : W) seg0 rest context b0 bs fuel :
  get_cache E (cache w) (seg0 :: rest) context = None ->
  generate_audio_stream E (infer_seed seg0)
    (stream_kwargs E seg0 context (List.map text (seg0 :: rest)))
  = b0 :: bs ->
  Forall (fun batch => length batch = length b0) bs ->
  (length (b0 :: bs) < fuel)%nat ->
  exists w1 g w2 items,
    generate_batch_base E (seg0 :: rest) context true w = (w1, Ok (RetGen g))
    /\ drain E fuel g w1 = (w2, Ok (Some items))
    /\ items = combine (seq (length (heap w)) (S (length bs)))
                 (List.map yielded (b0 :: bs))
    /\ heap w2
       = <[length (heap w) := accumulated (yielded b0) bs]>
           (heap w ++ List.map yielded (b0 :: bs))
    /\ cache w2
       = set_cache E (cache w) (seg0 :: rest) context
           (Some (length (heap w))).
Proof.
  intros Hmiss Hs Hbs Hfuel.
  destruct fuel as [|[|fuel]]; simpl in Hfuel; try lia.
  rewrite (miss_stream _ _ _ _ Hmiss).
  match goal with |- context [GStart ?c] => set (cl := c) end.
  match goal with |- context [(?w', Ok (RetGen _))] => set (w1 := w') end.
  set (a0 := length (heap w)).
  set (wA := {| heap := heap w ++ [yielded b0]; cache := cache w;
                chat := true; current_infer := Some (infers w);
                infers := S (infers w);
                calls := calls w1
                         ++ [CGenerateAudioStream (cl_infer cl) (cl_seed cl)
                               (cl_kwargs cl)] |}).
  assert (Hnext : gen_next E (GStart cl) w1
                  = (wA, Ok (Some a0, GYielded cl (List.map chunk b0) a0 bs None))).
  { unfold gen_next, bind, log. subst wA a0 w1 cl.
    cbn [cl_seed cl_kwargs cl_infer].
    rewrite Hs, stream_fetch_cons. reflexivity. }
  destruct (drain_fetch_heap bs fuel cl a0 wA (yielded b0))
    as (items & w2 & Hrun & Hitems & Hheap & Hcache).
  { simpl. now apply list_lookup_middle. }
  { unfold yielded. rewrite length_map. exact Hbs. }
  { lia. }
  exists w1, (GStart cl), w2, ((a0, yielded b0) :: items).
  conjuncts.
  - reflexivity.
  - change (drain E (S (S fuel)) (GStart cl) w1)
      with (bind (gen_next E (GStart cl))
              (consume_result (drain E (S fuel))) w1).
    rewrite (bind_ok _ _ _ _ _ Hnext), consume_yield.
    change (drain E (S fuel) (GYielded cl (List.map chunk b0) a0 bs None) wA)
      with (bind (stream_fetch E cl bs (Some a0))
              (consume_result (drain E fuel)) wA).
    rewrite Hrun. simpl. unfold wA, a0. now rewrite deref_alloc.
  - rewrite Hitems. cbn [length seq List.map combine heap]. do 3 f_equal.
    unfold wA. cbn [heap]. rewrite length_app. simpl. unfold a0. lia.
  - rewrite Hheap. unfold wA. cbn [heap List.map].
    now rewrite <- app_assoc.
  - exact Hcache.
Qed.

(** X7: After a streaming run on a cache miss was consumed to the end, the
    lists the consumer was handed occupy consecutive fresh addresses; read
    now, the first one holds the running concatenation of all partial
    batches, as it is the object the generator used as its buffer and
    wrote to the cache, while every later one still holds the partial
    batch it was yielded with. *)
Theorem yielded_lists_after_exhaustion (w : W) seg0 rest context b0 bs fuel :
  get_cache E (cache w) (seg0 :: rest) context = None ->
  generate_audio_stream E (infer_seed seg0)
    (stream_kwargs E seg0 context (List.map text (seg0 :: rest)))
  = b0 :: bs ->
  Forall (fun batch => length batch = length b0) bs ->
  (length (b0 :: bs) < fuel)%nat ->
  exists w1 g w2 items,
    generate_batch_base E (seg0 :: rest) context true w = (w1, Ok (RetGen g))
    /\ drain E fuel g w1 = (w2, Ok (Some items))
    /\ List.map fst items = seq (length (heap w)) (S (length bs))
    /\ List.map snd items = List.map yielded (b0 :: bs)
    /\ read_back w2 items
       = accumulated (yielded b0) bs :: List.map yielded bs
    /\ cache w2
       = set_cache E (cache w) (seg0 :: rest) context
           (Some (length (heap w))).
Proof.
  intros Hmiss Hs Hbs Hfuel.
  destruct (stream_run w seg0 rest context b0 bs fuel Hmiss Hs Hbs Hfuel)
    as (w1 & g & w2 & items & Hrun & Hdrain & Hitems & Hheap & Hcache).
  exists w1, g, w2, items.
  assert (Hfst : List.map fst items = seq (length (heap w)) (S (length bs))).
  { rewrite Hitems. apply map_fst_combine.
    now rewrite length_seq, length_map. }
  conjuncts; try assumption.
  - rewrite Hitems. apply map_snd_combine.
    now rewrite length_seq, length_map.
  - unfold read_back. rewrite <- (map_map fst (deref w2)), Hfst.
    unfold deref. rewrite Hheap.
    cbn [seq List.map]. f_equal.
    + rewrite list_lookup_insert_eq; [reflexivity|].
      rewrite length_app. simpl. lia.
    + pose proof (read_seq (List.map yielded bs) (heap w ++ [yielded b0])
                    (accumulated (yielded b0) bs) (length (heap w))
                    ltac:(rewrite length_app; simpl; lia)) as H.
      rewrite length_app, length_map, <- app_assoc in H.
      cbn [length app] in H. rewrite Nat.add_1_r in H. exact H.
Qed.

(** X8: When the cache returns what was stored under a key, a streaming run
    that was consumed to the end is followed by hits: the non-streaming
    call returns, without touching the state, the list object the
    generator yielded first, which now holds the concatenation of all
    partial batches. *)
Theorem streamed_result_served_from_cache
    (w : W) seg0 rest context b0 bs fuel :
  (forall c value,
      get_cache E (set_cache E c (seg0 :: rest) context value)
        (seg0 :: rest) context = value) ->
  get_cache E (cache w) (seg0 :: rest) context = None ->
  generate_audio_stream E (infer_seed seg0)
    (stream_kwargs E seg0 context (List.map text (seg0 :: rest)))
  = b0 :: bs ->
  Forall (fun batch => length batch = length b0) bs ->
  (length (b0 :: bs) < fuel)%nat ->
  exists w1 g w2 items a,
    generate_batch_base E (seg0 :: rest) context true w = (w1, Ok (RetGen g))
    /\ drain E fuel g w1 = (w2, Ok (Some items))
    /\ List.map fst items !! 0%nat = Some a
    /\ generate_batch_base E (seg0 :: rest) context false w2
       = (w2, Ok (RetList a))
    /\ deref w2 a = accumulated (yielded b0) bs.
Proof.
  intros Hlaw Hmiss Hs Hbs Hfuel.
  destruct (stream_run w seg0 rest context b0 bs fuel Hmiss Hs Hbs Hfuel)
    as (w1 & g & w2 & items & Hrun & Hdrain & Hitems & Hheap & Hcache).
  exists w1, g, w2, items, (length (heap w)). conjuncts; try assumption.
  - rewrite Hitems. reflexivity.
  - unfold generate_batch_base, bind, cache_get.
    now rewrite Hcache, Hlaw.
  - unfold deref. rewrite Hheap.
    rewrite list_lookup_insert_eq; [reflexivity|].
    rewrite length_app. simpl. lia.
Qed.

Lemma accumulate_overflow rs : forall (w : W) b i l,
  heap w !! b = Some l ->
  (i <= length l)%nat ->
  (length l < i + length rs)%nat ->
  exists w', accumulate b i rs w = (w', Raise IndexError).
Proof.
  induction rs as [|data rs IH]; intros w b i l Hb Hi Hlen; simpl in *.
  - lia.
  - unfold bind at 1. unfold read_list, deref. rewrite Hb. simpl.
    unfold bind at 1. unfold lift, getitem.
    destruct (l !! i) as [[s before]|] eqn:Hl; [|now eexists].
    unfold bind, write_list.
    pose proof (lookup_lt_Some _ _ _ Hl) as Hlt.
    match goal with |- context [accumulate b (S i) rs ?w'] =>
      destruct (IH w' b (S i) (<[i := (s, before ++ data)]> l))
        as (w2 & ->) end.
    + simpl. apply list_lookup_insert_eq. now apply lookup_lt_Some in Hb.
    + rewrite length_insert. lia.
    + rewrite length_insert. lia.
    + now eexists.
Qed.

(** X9: A partial batch with more entries than the first one makes the
    generator fail, but only after that batch was handed over: the first
    [next] yields the first batch, the second [next] yields the longer
    batch as a list of its own (the first list still holds the first
    batch), and the third [next] raises [IndexError] from the buffer
    update.  A consumer's loop therefore ends in [IndexError], and the
    cache is not written. *)
Theorem longer_batch_raises (w : W) seg0 rest context b0 b1 bs fuel :
  get_cache E (cache w) (seg0 :: rest) context = None ->
  generate_audio_stream E (infer_seed seg0)
    (stream_kwargs E seg0 context (List.map text (seg0 :: rest)))
  = b0 :: b1 :: bs ->
  (length b0 < length b1)%nat ->
  exists w1 g,
    generate_batch_base E (seg0 :: rest) context true w = (w1, Ok (RetGen g))
    /\ (exists wA a0 g1 wB a1 g2 wC,
          gen_next E g w1 = (wA, Ok (Some a0, g1))
          /\ deref wA a0 = yielded b0
          /\ gen_next E g1 wA = (wB, Ok (Some a1, g2))
          /\ a1 <> a0
          /\ deref wB a1 = yielded b1
          /\ deref wB a0 = yielded b0
          /\ gen_next E g2 wB = (wC, Raise IndexError)
          /\ cache wC = cache w)
    /\ exists w2,
         drain E (S (S (S fuel))) g w1 = (w2, Raise IndexError)
         /\ cache w2 = cache w.
Proof.
  intros Hmiss Hs Hlen.
  rewrite (miss_stream _ _ _ _ Hmiss).
  match goal with |- context [GStart ?c] => set (cl := c) end.
  match goal with |- context [(?w', Ok (RetGen _))] => set (w1 := w') end.
  set (a0 := length (heap w)).
  set (wA := {| heap := heap w ++ [yielded b0]; cache := cache w;
                chat := true; current_infer := Some (infers w);
                infers := S (infers w);
                calls := calls w1
                         ++ [CGenerateAudioStream (cl_infer cl) (cl_seed cl)
                               (cl_kwargs cl)] |}).
  assert (Hnext : gen_next E (GStart cl) w1
                  = (wA, Ok (Some a0,
                             GYielded cl (List.map chunk b0) a0 (b1 :: bs)
                               None))).
  { unfold gen_next, bind, log. subst wA a0 w1 cl.
    cbn [cl_seed cl_kwargs cl_infer].
    rewrite Hs, stream_fetch_cons. reflexivity. }
  set (wB := {| heap := heap wA ++ [yielded b1]; cache := cache wA;
                chat := chat wA; current_infer := current_infer wA;
                infers := infers wA; calls := calls wA |}).
  assert (Hnext2 : gen_next E
                     (GYielded cl (List.map chunk b0) a0 (b1 :: bs) None) wA
                   = (wB, Ok (Some (length (heap wA)),
                              GYielded cl (List.map chunk b1)
                                (length (heap wA)) bs (Some a0)))).
  { cbn [gen_next]. now rewrite stream_fetch_cons. }
  assert (Ha0 : heap wB !! a0 = Some (yielded b0)).
  { unfold wB, wA. cbn [heap]. rewrite <- app_assoc.
    now apply list_lookup_middle. }
  destruct (accumulate_overflow (List.map chunk b1) wB a0 0 (yielded b0))
    as (w2 & Hacc).
  { exact Ha0. }
  { lia. }
  { unfold yielded. rewrite !length_map. lia. }
  assert (Hnext3 : gen_next E
                     (GYielded cl (List.map chunk b1) (length (heap wA)) bs
                        (Some a0)) wB
                   = (w2, Raise IndexError)).
  { cbn [gen_next]. unfold bind. now rewrite Hacc. }
  assert (Hdrain : drain E (S (S (S fuel))) (GStart cl) w1
                   = (w2, Raise IndexError)).
  { change (drain E (S (S (S fuel))) (GStart cl) w1)
      with (bind (gen_next E (GStart cl))
              (consume_result (drain E (S (S fuel)))) w1).
    rewrite (bind_ok _ _ _ _ _ Hnext), consume_yield.
    change (drain E (S (S fuel))
              (GYielded cl (List.map chunk b0) a0 (b1 :: bs) None) wA)
      with (bind (stream_fetch E cl (b1 :: bs) (Some a0))
              (consume_result (drain E (S fuel))) wA).
    rewrite (bind_ok _ _ _ _ _ (stream_fetch_cons wA cl b1 bs (Some a0))).
    fold wB. rewrite consume_yield.
    change (drain E (S fuel)
              (GYielded cl (List.map chunk b1) (length (heap wA)) bs
                 (Some a0)) wB)
      with (bind (bind (accumulate a0 0 (List.map chunk b1))
                    (fun _ => stream_fetch E cl bs (Some a0)))
              (consume_result (drain E fuel)) wB).
    unfold bind. now rewrite Hacc. }
  assert (Hcache : cache w2 = cache w).
  { apply (drain_cache _ _ _ _ _ Hdrain). discriminate. }
  exists w1, (GStart cl). split; [reflexivity|]. split.
  - eexists wA, a0, _, wB, (length (heap wA)), _, w2.
    split; [exact Hnext|].
    split; [unfold wA, a0; apply deref_alloc|].
    split; [exact Hnext2|].
    split; [unfold wA, a0; cbn [heap]; rewrite length_app; simpl; lia|].
    split; [unfold wB; apply deref_alloc|].
    split; [unfold deref; now rewrite Ha0|].
    split; [exact Hnext3 | exact Hcache].
  - exists w2. split; [exact Hdrain | exact Hcache].
Qed.

End ChatTtsModelFacts.

Ltac split_all := repeat match goal with |- _ /\ _ => split end.

(** ** The web UI seed *)

Module WebuiFacts.

Import Webui.

Local Open Scope Q_scope.

Lemma Qle_bool_false (x y : Q) : Qle_bool x y = false -> y < x.
Proof.
  intros H. apply Qnot_le_lt. intros Hle.
  apply Qle_bool_iff in Hle. congruence.
Qed.

(** Rounding towards zero keeps a value inside integer bounds that have
    zero between them. *)
Lemma Qtrunc_bounds (q : Q) (lo hi : Z) :
  (lo <= 0)%Z -> (0 <= hi)%Z ->
  inject_Z lo <= q -> q <= inject_Z hi ->
  (lo <= Qtrunc q <= hi)%Z.
Proof.
  intros Hlo Hhi Hq1 Hq2. unfold Qtrunc.
  destruct (Qle_bool 0 q) eqn:H0.
  - apply Qle_bool_iff in H0. split.
    + apply Z.le_trans with 0%Z; [exact Hlo|].
      change 0%Z with (Qfloor (inject_Z 0)). now apply Qfloor_resp_le.
    + rewrite <- (Qfloor_Z hi). now apply Qfloor_resp_le.
  - apply Qle_bool_false in H0. split.
    + rewrite <- (Qceiling_Z lo). now apply Qceiling_resp_le.
    + apply Z.le_trans with 0%Z; [|exact Hhi].
      change 0%Z with (Qceiling (inject_Z 0)).
      apply Qceiling_resp_le. now apply Qlt_le_weak.
Qed.

Lemma Qtrunc_Z (z : Z) : Qtrunc (inject_Z z) = z.
Proof.
  unfold Qtrunc. destruct (Qle_bool 0 (inject_Z z));
    [apply Qfloor_Z | apply Qceiling_Z].
Qed.

(** [Qtrunc] rounds towards zero. *)
Lemma Qtrunc_spec (q : Q) :
  (0 <= q -> inject_Z (Qtrunc q) <= q /\ q < inject_Z (Qtrunc q + 1))
  /\ (q < 0 -> inject_Z (Qtrunc q - 1) < q /\ q <= inject_Z (Qtrunc q)).
Proof.
  unfold Qtrunc. split; intros Hq.
  - apply Qle_bool_iff in Hq. rewrite Hq.
    split; [apply Qfloor_le | apply Qlt_floor].
  - destruct (Qle_bool 0 q) eqn:H0.
    + apply Qle_bool_iff in H0. destruct (Qlt_not_le _ _ Hq H0).
    + split; [apply Qceiling_lt | apply Qle_ceiling].
Qed.

Local Close Scope Q_scope.

Lemma as_float64_int (z : Z) :
  - 2 ^ 63 <= z <= 2 ^ 64 - 1 -> as_float64 (PyInt z) = Ok (Fin (inject_Z z)).
Proof.
  intros H. unfold as_float64.
  destruct (Z.leb_spec (- 2 ^ 63) z); [|lia].
  destruct (Z.leb_spec z (2 ^ 64 - 1)); [reflexivity | lia].
Qed.

Lemma as_float64_int_raises (z : Z) :
  z < - 2 ^ 63 \/ 2 ^ 64 - 1 < z ->
  as_float64 (PyInt z) = Raise UFuncTypeError.
Proof.
  intros H. unfold as_float64.
  destruct (Z.leb_spec (- 2 ^ 63) z); [|reflexivity].
  destruct (Z.leb_spec z (2 ^ 64 - 1)); [lia | reflexivity].
Qed.

(** For an [int] that can be cast the clamped seed is the integer
    clamp. *)
Lemma clamp_seed_int (z : Z) :
  - 2 ^ 63 <= z <= 2 ^ 64 - 1 ->
  clamp_seed (PyInt z) = Ok (Z.min (Z.max z (-1)) (2 ^ 32 - 1)).
Proof.
  intros Hr. unfold clamp_seed, np_clip. rewrite (as_float64_int z Hr).
  cbn [res_bind]. unfold np_maximum.
  destruct (Qle_bool (inject_Z (-1)) (inject_Z z)) eqn:H1.
  - apply Qle_bool_iff in H1. rewrite <- Zle_Qle in H1.
    unfold np_minimum.
    destruct (Qle_bool (inject_Z z) (inject_Z (2 ^ 32 - 1))) eqn:H2.
    + apply Qle_bool_iff in H2. rewrite <- Zle_Qle in H2.
      unfold int_of_float. rewrite Qtrunc_Z. f_equal. lia.
    + apply Qle_bool_false in H2. rewrite <- Zlt_Qlt in H2.
      unfold int_of_float. rewrite Qtrunc_Z. f_equal. lia.
  - apply Qle_bool_false in H1. rewrite <- Zlt_Qlt in H1.
    replace (Z.min (Z.max z (-1)) (2 ^ 32 - 1)) with (-1)%Z by lia.
    reflexivity.
Qed.

(** The clamped seed of a finite float. *)
Lemma clamp_seed_fin (q : Q) :
  exists s, clamp_seed (PyFloat (Fin q)) = Ok s
            /\ is_clamp_of (PyFloat (Fin q)) s.
Proof.
  unfold clamp_seed, np_clip, as_float64. cbn [res_bind]. unfold np_maximum.
  assert (Hlh : Qle_bool (inject_Z (-1)) (inject_Z (2 ^ 32 - 1)) = true)
    by reflexivity.
  destruct (Qle_bool (inject_Z (-1)) q) eqn:H1.
  - pose proof (proj1 (Qle_bool_iff _ _) H1) as H1'.
    unfold np_minimum.
    destruct (Qle_bool q (inject_Z (2 ^ 32 - 1))) eqn:H2.
    + pose proof (proj1 (Qle_bool_iff _ _) H2) as H2'.
      exists (Qtrunc q). split; [reflexivity|]. split.
      * apply Qtrunc_bounds; auto; lia.
      * split; [intros H; destruct (Qlt_not_le _ _ H H1')|].
        split; [intros H; destruct (Qlt_not_le _ _ H H2')|].
        intros _ _. apply Qtrunc_spec.
    + pose proof (Qle_bool_false _ _ H2) as H2'.
      exists (2 ^ 32 - 1). split.
      * unfold int_of_float. now rewrite Qtrunc_Z.
      * split; [lia|].
        split; [intros H; destruct (Qlt_not_le _ _ H H1')|].
        split; [reflexivity|].
        intros _ H. destruct (Qlt_not_le _ _ H2' H).
  - pose proof (Qle_bool_false _ _ H1) as H1'.
    unfold np_minimum. rewrite Hlh.
    exists (-1). split.
    + unfold int_of_float. now rewrite Qtrunc_Z.
    + split; [lia|]. split; [reflexivity|].
      split.
      * intros H. exfalso. apply (Qlt_not_le _ _ H1').
        apply Qle_trans with (inject_Z (2 ^ 32 - 1));
          [now apply Qle_bool_iff | now apply Qlt_le_weak].
      * intros H. destruct (Qlt_not_le _ _ H1' H).
Qed.

Lemma clamp_seed_pinf : clamp_seed (PyFloat PInf) = Ok (2 ^ 32 - 1).
Proof.
  unfold clamp_seed, np_clip, as_float64, np_maximum, np_minimum.
  cbn [res_bind int_of_float]. now rewrite Qtrunc_Z.
Qed.

Lemma clamp_seed_ninf : clamp_seed (PyFloat NInf) = Ok (-1).
Proof.
  unfold clamp_seed, np_clip, as_float64, np_maximum, np_minimum.
  cbn [res_bind].
  replace (Qle_bool (inject_Z (-1)) (inject_Z (2 ^ 32 - 1))) with true
    by reflexivity.
  cbn [int_of_float]. now rewrite Qtrunc_Z.
Qed.

(** The clamping lines return exactly on the accepted seeds, and what
    they return is the clamp of the seed. *)
Lemma clamp_seed_spec (x : pynum) (s : Z) :
  clamp_seed x = Ok s -> seed_accepted x /\ is_clamp_of x s.
Proof.
  destruct x as [z|[| | |q]].
  - destruct (Z.leb_spec (- 2 ^ 63) z) as [H1|H1];
      [destruct (Z.leb_spec z (2 ^ 64 - 1)) as [H2|H2]|].
    + rewrite clamp_seed_int by lia. intros [= <-].
      split; [simpl; lia|]. split; [lia|]. split_all; lia.
    + unfold clamp_seed, np_clip.
      rewrite as_float64_int_raises by lia. discriminate.
    + unfold clamp_seed, np_clip.
      rewrite as_float64_int_raises by lia. discriminate.
  - discriminate.
  - rewrite clamp_seed_pinf. intros [= <-].
    split; [exact I|]. split; [lia | reflexivity].
  - rewrite clamp_seed_ninf. intros [= <-].
    split; [exact I|]. split; [lia | reflexivity].
  - destruct (clamp_seed_fin q) as (s' & -> & Hc). intros [= <-].
    split; [exact I | exact Hc].
Qed.

Lemma clamp_seed_total (x : pynum) :
  seed_accepted x -> exists s, clamp_seed x = Ok s.
Proof.
  destruct x as [z|[| | |q]]; simpl; intros H.
  - eexists. now apply clamp_seed_int.
  - destruct H.
  - eexists. apply clamp_seed_pinf.
  - eexists. apply clamp_seed_ninf.
  - destruct (clamp_seed_fin q) as (s & Hs & _). now exists s.
Qed.


Section TtsGenerate.

Context {Spk : Type}.
Variable calc_spk_style : Spk -> pystr -> Res (@Params Spk).
Variables (tts_max dflt : Z).

(** A run of [tts_generate] that builds a configuration passed every
    step, and the configuration holds what the steps computed. *)
Lemma tts_generate_inv (args : Args) (cfg : InferConfig) :
  tts_generate calc_spk_style tts_max dflt args = Ok cfg ->
  truthy (slice_to (strip (a_text args)) tts_max) = true
  /\ exists k params s,
       top_k_of args = Ok k
       /\ calc_spk_style (a_spk args) (style_of args) = Ok params
       /\ clamp_seed (seed_or (a_infer_seed args) (p_seed params)) = Ok s
       /\ (a_spk_file args = None \/ a_spk_file args = Some Loaded)
       /\ cfg = {| batch_size := match int_of_num (a_batch_size args) with
                                 | Ok b => b
                                 | Raise _ => 4
                                 end;
                   spliter_threshold := a_spliter_thr args;
                   eos := a_eos args; seed := s;
                   stream_chunk_size := dflt |}.
Proof.
  unfold tts_generate, tts_generate_configs.
  destruct (truthy (slice_to (strip (a_text args)) tts_max));
    [|discriminate].
  cbn [negb]. destruct (top_k_of args) as [k|e]; [|discriminate].
  cbn [res_bind].
  destruct (calc_spk_style (a_spk args) (style_of args)) as [params|e];
    [|discriminate].
  cbn [res_bind].
  destruct (clamp_seed (seed_or (a_infer_seed args) (p_seed params)))
    as [s|e] eqn:Hs; [|discriminate].
  cbn [res_bind].
  destruct (a_spk_file args) as [[| |]|]; cbn [res_bind snd];
    try discriminate; intros [= <-]; split; try reflexivity;
    exists k, params, s; split_all; auto.
Qed.

Lemma tts_generate_build (args : Args) k params s :
  truthy (slice_to (strip (a_text args)) tts_max) = true ->
  top_k_of args = Ok k ->
  calc_spk_style (a_spk args) (style_of args) = Ok params ->
  clamp_seed (seed_or (a_infer_seed args) (p_seed params)) = Ok s ->
  a_spk_file args = None \/ a_spk_file args = Some Loaded ->
  tts_generate calc_spk_style tts_max dflt args
  = Ok {| batch_size := match int_of_num (a_batch_size args) with
                        | Ok b => b
                        | Raise _ => 4
                        end;
          spliter_threshold := a_spliter_thr args;
          eos := a_eos args; seed := s; stream_chunk_size := dflt |}.
Proof.
  intros Ht Hk Hp Hs Hf. unfold tts_generate, tts_generate_configs.
  rewrite Ht, Hk. cbn [negb res_bind]. rewrite Hp. cbn [res_bind].
  rewrite Hs. cbn [res_bind].
  destruct Hf as [-> | ->]; reflexivity.
Qed.

(** C10: whenever [tts_generate] builds an inference configuration, its
    seed is an integer of the closed interval from -1 to 2^32 - 1, and it
    is the seed argument (the style's seed when the argument is zero)
    clamped into that interval: -1 below it, 2^32 - 1 above it, and the
    argument rounded towards zero inside it.  A configuration is built
    for every seed the clamping lines accept (a float that is not NaN, an
    integer that fits 64 bits), also below -1 and above 2^32 - 1, when
    the other steps of the function pass. *)
Theorem tts_generate_seed_clamped (args : Args) :
  (forall cfg,
      tts_generate calc_spk_style tts_max dflt args = Ok cfg ->
      -1 <= seed cfg <= 2 ^ 32 - 1
      /\ (num_truthy (a_infer_seed args) = true ->
          seed_accepted (a_infer_seed args)
          /\ is_clamp_of (a_infer_seed args) (seed cfg))
      /\ exists params,
           calc_spk_style (a_spk args) (style_of args) = Ok params
           /\ seed_accepted (seed_or (a_infer_seed args) (p_seed params))
           /\ is_clamp_of (seed_or (a_infer_seed args) (p_seed params))
                (seed cfg))
  /\ (forall k params,
        truthy (slice_to (strip (a_text args)) tts_max) = true ->
        top_k_of args = Ok k ->
        calc_spk_style (a_spk args) (style_of args) = Ok params ->
        seed_accepted (seed_or (a_infer_seed args) (p_seed params)) ->
        a_spk_file args = None \/ a_spk_file args = Some Loaded ->
        exists cfg,
          tts_generate calc_spk_style tts_max dflt args = Ok cfg
          /\ is_clamp_of (seed_or (a_infer_seed args) (p_seed params))
               (seed cfg)).
Proof.
  split.
  - intros cfg H.
    destruct (tts_generate_inv args cfg H)
      as (_ & k & params & s & _ & Hp & Hs & _ & ->).
    cbn [seed]. destruct (clamp_seed_spec _ _ Hs) as (Ha & Hc).
    split; [exact (proj1 Hc)|]. split.
    + intros Ht. unfold seed_or in Ha, Hc. rewrite Ht in Ha, Hc.
      now split.
    + exists params. now split.
  - intros k params Ht Hk Hp Ha Hf.
    destruct (clamp_seed_total _ Ha) as (s & Hs).
    eexists. split; [apply (tts_generate_build args k params s); auto|].
    now apply clamp_seed_spec.
Qed.


End TtsGenerate.

End WebuiFacts.

(** ** The length limit on SSML segments *)

Module WebuiListsFacts.

Import Webui WebuiLists.

Section Limit.

Context {Attrs : Type}.
Implicit Types (segments ret : list (SSMLItem Attrs)).

Lemma text_len_nonneg segments : 0 <= text_len segments.
Proof. induction segments as [|[d|t a] l IH]; simpl; lia. Qed.

Lemma text_len_app segments ret :
  text_len (segments ++ ret) = text_len segments + text_len ret.
Proof. induction segments as [|[d|t a] l IH]; simpl; lia. Qed.

(** The loop only appends to [ret_segments]. *)
Lemma limit_loop_app segments : forall ret total_len total_max,
  limit_loop segments ret total_len total_max
  = ret ++ limit_loop segments [] total_len total_max.
Proof.
  induction segments as [|[d|t a] l IH]; intros ret total_len total_max;
    simpl.
  - now rewrite app_nil_r.
  - rewrite (IH (ret ++ [SSMLBreak d])), (IH [SSMLBreak d]).
    now rewrite <- app_assoc.
  - destruct (total_len + Z.of_nat (length t) >? total_max).
    + now rewrite app_nil_r.
    + rewrite (IH (ret ++ [SSMLSegment t a])), (IH [SSMLSegment t a]).
      now rewrite <- app_assoc.
Qed.

Lemma limit_loop_bound segments : forall total_len total_max,
  total_len <= total_max ->
  total_len + text_len (limit_loop segments [] total_len total_max)
  <= total_max.
Proof.
  induction segments as [|[d|t a] l IH]; intros total_len total_max Hle;
    simpl.
  - lia.
  - rewrite limit_loop_app. simpl. now apply IH.
  - destruct (Z.gtb_spec (total_len + Z.of_nat (length t)) total_max).
    + simpl. lia.
    + rewrite limit_loop_app. simpl.
      specialize (IH (total_len + Z.of_nat (length t)) total_max). lia.
Qed.

Lemma limit_loop_fits segments : forall total_len total_max,
  total_len + text_len segments <= total_max ->
  limit_loop segments [] total_len total_max = segments.
Proof.
  induction segments as [|[d|t a] l IH]; intros total_len total_max Hle;
    simpl in *.
  - reflexivity.
  - rewrite limit_loop_app. simpl. f_equal. now apply IH.
  - pose proof (text_len_nonneg l).
    destruct (Z.gtb_spec (total_len + Z.of_nat (length t)) total_max);
      [lia|].
    rewrite limit_loop_app. simpl. f_equal. apply IH. lia.
Qed.

Lemma limit_loop_cut segments : forall total_len total_max,
  limit_loop segments [] total_len total_max = segments
  \/ exists pre t a post,
       segments = pre ++ SSMLSegment t a :: post
       /\ limit_loop segments [] total_len total_max = pre
       /\ total_max < total_len + text_len pre + Z.of_nat (length t).
Proof.
  induction segments as [|[d|t a] l IH]; intros total_len total_max; simpl.
  - now left.
  - rewrite limit_loop_app. simpl.
    destruct (IH total_len total_max)
      as [-> | (pre & t & a & post & -> & -> & Hlt)]; [now left|].
    right. exists (SSMLBreak d :: pre), t, a, post. now split_all.
  - destruct (Z.gtb_spec (total_len + Z.of_nat (length t)) total_max).
    + right. exists [], t, a, l. simpl. split_all; auto; lia.
    + rewrite limit_loop_app. simpl.
      destruct (IH (total_len + Z.of_nat (length t)) total_max)
        as [-> | (pre & t' & a' & post & -> & -> & Hlt)]; [now left|].
      right. exists (SSMLSegment t a :: pre), t', a', post.
      simpl. split_all; auto; lia.
Qed.

Lemma limit_loop_idem segments : forall total_len total_max,
  limit_loop (limit_loop segments [] total_len total_max) [] total_len
    total_max
  = limit_loop segments [] total_len total_max.
Proof.
  induction segments as [|[d|t a] l IH]; intros total_len total_max; simpl.
  - reflexivity.
  - rewrite (limit_loop_app l [SSMLBreak d]). simpl.
    rewrite (limit_loop_app _ [SSMLBreak d]). simpl. f_equal. apply IH.
  - destruct (total_len + Z.of_nat (length t) >? total_max) eqn:Hgt.
    + reflexivity.
    + rewrite (limit_loop_app l [SSMLSegment t a]). simpl. rewrite Hgt.
      rewrite (limit_loop_app _ [SSMLSegment t a]). simpl. f_equal.
      apply IH.
Qed.

(** X10: The text kept by [segments_length_limit] has at most [total_max]
    characters, for a limit that is not negative. *)
Theorem limit_bounds_text segments total_max :
  0 <= total_max ->
  text_len (segments_length_limit segments total_max) <= total_max.
Proof.
  intros H. unfold segments_length_limit.
  pose proof (limit_loop_bound segments 0 total_max H). lia.
Qed.

(** X11: A document whose text fits the limit is returned unchanged, breaks
    included. *)
Theorem limit_keeps_fitting_document segments total_max :
  text_len segments <= total_max ->
  segments_length_limit segments total_max = segments.
Proof. intros H. now apply limit_loop_fits. Qed.

(** X12: [segments_length_limit] returns the document itself or cuts it just
    before a text segment: everything before that segment is kept, in
    order, the segment and everything after it (breaks too) is dropped,
    and the kept text together with that segment would exceed the limit. *)
Theorem limit_cuts_before_overflowing_segment segments total_max :
  segments_length_limit segments total_max = segments
  \/ exists pre t a post,
       segments = pre ++ SSMLSegment t a :: post
       /\ segments_length_limit segments total_max = pre
       /\ total_max < text_len pre + Z.of_nat (length t).
Proof.
  unfold segments_length_limit.
  destruct (limit_loop_cut segments 0 total_max)
    as [H | (pre & t & a & post & H1 & H2 & H3)]; [now left|].
  right. exists pre, t, a, post. split_all; auto; lia.
Qed.

(** X13: Limiting twice with the same limit is limiting once. *)
Theorem limit_idempotent segments total_max :
  segments_length_limit (segments_length_limit segments total_max) total_max
  = segments_length_limit segments total_max.
Proof. apply limit_loop_idem. Qed.

(** X14: [synthesize_ssml] builds a configuration exactly when the stripped
    SSML is not empty and the limited parse has an element; otherwise it
    raises the error of the first test that fails.  The batch size is the
    integer value of the argument, or 8 when [int] fails on it. *)
Theorem synthesize_ssml_outcome
    (parse : pystr -> list (SSMLItem Attrs)) (ssml_max dseed dchunk : Z)
    (ssml : pystr) (batch_size : pynum) (eos : pystr) (spliter_thr : Z) :
  (strip ssml = [] ->
   synthesize_ssml parse ssml_max dseed dchunk ssml batch_size eos spliter_thr
   = Raise (GrError "SSML is empty, please input some SSML"))
  /\ (strip ssml <> [] ->
      segments_length_limit (parse (strip ssml)) ssml_max = [] ->
      synthesize_ssml parse ssml_max dseed dchunk ssml batch_size eos
        spliter_thr
      = Raise (GrError "No valid segments in SSML"))
  /\ (strip ssml <> [] ->
      segments_length_limit (parse (strip ssml)) ssml_max <> [] ->
      synthesize_ssml parse ssml_max dseed dchunk ssml batch_size eos
        spliter_thr
      = Ok {| batch_size := match int_of_num batch_size with
                            | Ok b => b
                            | Raise _ => 8
                            end;
              spliter_threshold := spliter_thr; eos := eos; seed := dseed;
              stream_chunk_size := dchunk |}).
Proof.
  unfold synthesize_ssml. repeat split.
  - intros ->. reflexivity.
  - intros Hne Hnil. destruct (strip ssml); [congruence|]. simpl.
    now rewrite Hnil.
  - intros Hne Hseg. destruct (strip ssml) as [|c t]; [congruence|]. simpl.
    destruct (segments_length_limit (parse (c :: t)) ssml_max);
      [congruence | reflexivity].
Qed.

End Limit.

(** *** The sorted speaker names *)

Lemma str_ltb_irrefl a : str_ltb a a = false.
Proof.
  induction a as [|x a IH]; simpl; [reflexivity|].
  now rewrite N.ltb_irrefl, N.eqb_refl, IH.
Qed.

Lemma str_ltb_trans a : forall b c,
  str_ltb a b = true -> str_ltb b c = true -> str_ltb a c = true.
Proof.
  induction a as [|x a IH]; intros [|y b] [|z c]; simpl; try easy.
  rewrite !orb_true_iff, !andb_true_iff, !N.ltb_lt, !N.eqb_eq.
  intros [H1 | [-> H1]] [H2 | [-> H2]].
  - left. lia.
  - now left.
  - now left.
  - right. split; [reflexivity|]. now apply (IH b c).
Qed.

Lemma str_ltb_asym a b : str_ltb a b = true -> str_ltb b a = false.
Proof.
  intros H. destruct (str_ltb b a) eqn:H'; [|reflexivity].
  pose proof (str_ltb_trans _ _ _ H H') as Hc.
  now rewrite str_ltb_irrefl in Hc.
Qed.

Section SortBy.

Variable key : pystr -> pystr.

Lemma insert_by_perm x l : Permutation (insert_by key x l) (x :: l).
Proof.
  induction l as [|y l IH]; simpl; [reflexivity|].
  destruct (str_ltb (key x) (key y)); [reflexivity|].
  rewrite IH. apply perm_swap.
Qed.

Lemma insert_by_sorted x l :
  StronglySorted (key_le key) l ->
  StronglySorted (key_le key) (insert_by key x l).
Proof.
  induction 1 as [|y l Hs IH Hall]; simpl.
  - constructor; constructor.
  - destruct (str_ltb (key x) (key y)) eqn:Hxy.
    + constructor; [now constructor|].
      constructor; [now apply str_ltb_asym|].
      eapply Forall_impl; [exact Hall|]. intros z Hz. unfold key_le in *.
      destruct (str_ltb (key z) (key x)) eqn:Hzx; [|reflexivity].
      now rewrite (str_ltb_trans _ _ _ Hzx Hxy) in Hz.
    + constructor; [exact IH|].
      apply (Permutation_Forall (Permutation_sym (insert_by_perm x l))).
      now constructor.
Qed.

Lemma fold_insert_perm l : forall acc,
  Permutation (fold_left (fun sorted x => insert_by key x sorted) l acc)
    (acc ++ l).
Proof.
  induction l as [|x l IH]; intros acc; simpl.
  - now rewrite app_nil_r.
  - rewrite IH, insert_by_perm. apply Permutation_middle.
Qed.

Lemma fold_insert_sorted l : forall acc,
  StronglySorted (key_le key) acc ->
  StronglySorted (key_le key)
    (fold_left (fun sorted x => insert_by key x sorted) l acc).
Proof.
  induction l as [|x l IH]; intros acc Hs; simpl; [exact Hs|].
  apply IH. now apply insert_by_sorted.
Qed.

(** Inserting into a sorted list puts an element behind every element
    with the same key. *)
Lemma insert_by_filter k x l :
  StronglySorted (key_le key) l ->
  List.filter (fun y => PyStr.eqb (key y) k) (insert_by key x l)
  = List.filter (fun y => PyStr.eqb (key y) k) l
    ++ (if PyStr.eqb (key x) k then [x] else []).
Proof.
  induction 1 as [|y l Hs IH Hall]; simpl.
  - destruct (PyStr.eqb (key x) k); reflexivity.
  - destruct (str_ltb (key x) (key y)) eqn:Hxy.
    + cbn [List.filter].
      destruct (PyStr.eqb (key x) k) eqn:Hx; [|now rewrite app_nil_r].
      apply PyStrFacts.eqb_eq in Hx.
      assert (Hy : PyStr.eqb (key y) k = false).
      { destruct (PyStr.eqb (key y) k) eqn:Hy; [|reflexivity].
        apply PyStrFacts.eqb_eq in Hy.
        rewrite Hx, Hy, str_ltb_irrefl in Hxy. discriminate. }
      rewrite Hy.
      assert (Hl : List.filter (fun y => PyStr.eqb (key y) k) l = []).
      { clear IH Hs. induction Hall as [|z l Hz _ IHl]; [reflexivity|].
        simpl. rewrite IHl.
        destruct (PyStr.eqb (key z) k) eqn:Hzk; [|reflexivity].
        apply PyStrFacts.eqb_eq in Hzk. unfold key_le in Hz.
        rewrite Hzk, <- Hx, Hxy in Hz. discriminate. }
      now rewrite Hl.
    + cbn [List.filter]. rewrite IH.
      destruct (PyStr.eqb (key y) k); reflexivity.
Qed.

Lemma fold_insert_filter k l : forall acc,
  StronglySorted (key_le key) acc ->
  List.filter (fun y => PyStr.eqb (key y) k)
    (fold_left (fun sorted x => insert_by key x sorted) l acc)
  = List.filter (fun y => PyStr.eqb (key y) k) acc
    ++ List.filter (fun y => PyStr.eqb (key y) k) l.
Proof.
  induction l as [|x l IH]; intros acc Hs; simpl.
  - now rewrite app_nil_r.
  - rewrite IH by (now apply insert_by_sorted).
    rewrite insert_by_filter by assumption. rewrite <- app_assoc.
    destruct (PyStr.eqb (key x) k); reflexivity.
Qed.

End SortBy.

(** X15: [get_speaker_names] returns the speakers as given, and the display
    names of all of them, each as often as it occurs, in ascending order
    of the sort key (a name that starts with an asterisk counts as
    "-1"). *)
Theorem speaker_names_sorted (speakers : list Speaker) :
  fst (get_speaker_names speakers) = speakers
  /\ Permutation (snd (get_speaker_names speakers))
       (List.map get_speaker_show_name speakers)
  /\ StronglySorted (key_le sort_key) (snd (get_speaker_names speakers)).
Proof.
  unfold get_speaker_names, sort_by. simpl. split_all.
  - reflexivity.
  - apply (fold_insert_perm sort_key _ []).
  - apply fold_insert_sorted. constructor.
Qed.

(** X16: The sort is stable: names with the same sort key keep the order the
    speakers have; in particular all names that start with an asterisk
    stay in the speakers' order. *)
Theorem speaker_names_stable (speakers : list Speaker) (k : pystr) :
  List.filter (fun x => PyStr.eqb (sort_key x) k)
    (snd (get_speaker_names speakers))
  = List.filter (fun x => PyStr.eqb (sort_key x) k)
      (List.map get_speaker_show_name speakers).
Proof.
  unfold get_speaker_names, sort_by. simpl.
  rewrite fold_insert_filter by constructor. reflexivity.
Qed.

End WebuiListsFacts.

(** ** Outcomes of [tts_generate] *)

Module WebuiOutcomes.

Import Webui.

Section TtsGenerate.

Context {Spk : Type}.
Variable calc_spk_style : Spk -> pystr -> Res (@Params Spk).
Variables (tts_max dflt : Z).



(** X18: Which seed is clamped: an integer seed other than 0 is used whatever
    the style says; the seed 0 is replaced by the style's seed when the
    style has one.  In both cases the configuration holds the integer
    clamp of the seed used. *)
Theorem seed_zero_defers_to_style (args : Args) (z : Z)
    (cfg : InferConfig) :
  tts_generate calc_spk_style tts_max dflt args = Ok cfg ->
  exists params,
    calc_spk_style (a_spk args) (style_of args) = Ok params
    /\ (a_infer_seed args = PyInt z -> z <> 0 ->
        seed cfg = Z.min (Z.max z (-1)) (2 ^ 32 - 1))
    /\ (a_infer_seed args = PyInt 0 -> p_seed params = Some (PyInt z) ->
        seed cfg = Z.min (Z.max z (-1)) (2 ^ 32 - 1))
    /\ (a_infer_seed args = PyInt 0 -> p_seed params = None ->
        seed cfg = 0).
Proof.
  intros H.
  destruct (WebuiFacts.tts_generate_inv _ _ _ _ _ H)
    as (_ & k & params & s & _ & Hp & Hc & _ & ->).
  exists params. split; [exact Hp|]. cbn [seed].
  assert (Hs : forall x,
             seed_or (a_infer_seed args) (p_seed params) = PyInt x ->
             s = Z.min (Z.max x (-1)) (2 ^ 32 - 1)).
  { intros x Hx. rewrite Hx in Hc.
    destruct (WebuiFacts.clamp_seed_spec _ _ Hc) as (Ha & _).
    simpl in Ha. rewrite WebuiFacts.clamp_seed_int in Hc by exact Ha.
    now injection Hc as <-. }
  split_all.
  - intros Hi Hz. apply (Hs z).
    unfold seed_or. rewrite Hi. simpl.
    destruct (Z.eqb_spec z 0); [contradiction | reflexivity].
  - intros Hi Hq. apply (Hs z).
    unfold seed_or. now rewrite Hi, Hq.
  - intros Hi Hq. rewrite (Hs 0); [reflexivity|].
    unfold seed_or. now rewrite Hi, Hq.
Qed.

End TtsGenerate.

End WebuiOutcomes.

(** ** The HTTP endpoints *)

Module ApiFacts.

Import Api.

Section Endpoints.

Context {Enhancer Adjuster Buffer : Type}.
Variable lower : pystr -> pystr.
Variable enqueue_to_buffer :
  pystr -> InferConfig -> Adjuster -> Enhancer -> pystr -> ApiRes Buffer.
Variables (dseed dchunk : Z).

Lemma reraise_http {A} (r : ApiRes A) status detail :
  r = Throw (HTTPException status detail) -> reraise r = r.
Proof. now intros ->. Qed.

Lemma reraise_throws {A} (r : ApiRes A) e :
  reraise r = Throw e ->
  (exists status detail,
      e = HTTPException status detail
      /\ (r = Throw e
          \/ exists str, status = 500 /\ detail = str
                         /\ r = Throw (OtherException str)))
  \/ (exists name, e = BaseOnly name /\ r = Throw e).
Proof.
  destruct r as [a|[status detail|str|name]]; simpl; intros [= <-].
  - left. eexists _, _. split; [reflexivity|]. now left.
  - left. eexists _, _. split; [reflexivity|]. right. now exists str.
  - right. now exists name.
Qed.

(** X19: What an endpoint raises is an [HTTPException], or an exception
    that is not an [Exception] ([KeyboardInterrupt], [SystemExit],
    [asyncio.CancelledError]) which the SSML handler, or the refiner,
    raised and which the [except Exception] clause does not catch.  An
    [Exception] of another class never gets out: it becomes status 500
    with its text as detail. *)
Theorem endpoints_raise_http_only {Request : Type}
    (refine_text : Request -> ApiRes pystr)
    (request : @SSMLRequest Enhancer Adjuster) (refine_request : Request)
    (e : ApiExc) :
  (synthesize_ssml_api lower enqueue_to_buffer dseed dchunk request = Throw e
   -> (exists status detail, e = HTTPException status detail)
      \/ (exists name,
             e = BaseOnly name
             /\ enqueue_to_buffer (req_ssml request)
                  {| batch_size := req_batch_size request;
                     spliter_threshold := req_spliter_thr request;
                     eos := req_eos request; seed := dseed;
                     stream_chunk_size := dchunk |}
                  (req_adjuster request) (req_enhancer request)
                  (req_format request)
                = Throw e))
  /\ (refiner_prompt_post refine_text refine_request = Throw e ->
      (exists status detail, e = HTTPException status detail)
      \/ (exists name,
             e = BaseOnly name /\ refine_text refine_request = Throw e))
  /\ (forall str,
        refine_text refine_request = Throw (OtherException str) ->
        refiner_prompt_post refine_text refine_request
        = Throw (HTTPException 500 str))
  /\ (forall name,
        refine_text refine_request = Throw (BaseOnly name) ->
        refiner_prompt_post refine_text refine_request
        = Throw (BaseOnly name)).
Proof.
  split_all.
  - unfold synthesize_ssml_api. intros H.
    destruct (reraise_throws _ _ H)
      as [(status & detail & -> & _)|(name & -> & Hb)].
    + left. now eexists _, _.
    + right. exists name. split; [reflexivity|].
      unfold synthesize_ssml_body in Hb.
      repeat match type of Hb with
             | (if ?c then _ else _) = _ =>
                 destruct c; [discriminate|]
             end.
      match type of Hb with
      | match ?c with _ => _ end = _ =>
          destruct c as [buffer|e']; [discriminate|]
      end.
      now injection Hb as ->.
  - unfold refiner_prompt_post. intros H.
    destruct (reraise_throws _ _ H)
      as [(status & detail & -> & _)|(name & -> & Hb)].
    + left. now eexists _, _.
    + right. exists name. split; [reflexivity|].
      destruct (refine_text refine_request) as [refined|e'];
        [discriminate | now injection Hb as ->].
  - intros str H. unfold refiner_prompt_post. now rewrite H.
  - intros name H. unfold refiner_prompt_post. now rewrite H.
Qed.

(** X20: A request with a batch size below 1, a threshold below 50, an empty
    SSML or a format that is neither mp3 nor wav in lower case is answered
    with status 400, whatever the handler would do; the first failing test
    in this order gives the detail. *)
Theorem invalid_request_is_400 (request : @SSMLRequest Enhancer Adjuster) :
  (req_batch_size request < 1 ->
   synthesize_ssml_api lower enqueue_to_buffer dseed dchunk request
   = Throw (HTTPException 400 (lit "Batch size must be greater than 0.")))
  /\ (1 <= req_batch_size request -> req_spliter_thr request < 50 ->
      synthesize_ssml_api lower enqueue_to_buffer dseed dchunk request
      = Throw (HTTPException 400
                 (lit "Spliter threshold must be greater than 50.")))
  /\ (1 <= req_batch_size request -> 50 <= req_spliter_thr request ->
      req_ssml request = [] ->
      synthesize_ssml_api lower enqueue_to_buffer dseed dchunk request
      = Throw (HTTPException 400 (lit "SSML content is required.")))
  /\ (1 <= req_batch_size request -> 50 <= req_spliter_thr request ->
      req_ssml request <> [] ->
      lower (req_format request) <> lit "mp3" ->
      lower (req_format request) <> lit "wav" ->
      synthesize_ssml_api lower enqueue_to_buffer dseed dchunk request
      = Throw (HTTPException 400 (lit "Format must be 'mp3' or 'wav'."))).
Proof.
  unfold synthesize_ssml_api, synthesize_ssml_body. split_all.
  - intros H. destruct (Z.ltb_spec (req_batch_size request) 1); [|lia].
    reflexivity.
  - intros H1 H2.
    destruct (Z.ltb_spec (req_batch_size request) 1); [lia|].
    destruct (Z.ltb_spec (req_spliter_thr request) 50); [|lia].
    reflexivity.
  - intros H1 H2 ->.
    destruct (Z.ltb_spec (req_batch_size request) 1); [lia|].
    destruct (Z.ltb_spec (req_spliter_thr request) 50); [lia|].
    reflexivity.
  - intros H1 H2 H3 H4 H5.
    destruct (Z.ltb_spec (req_batch_size request) 1); [lia|].
    destruct (Z.ltb_spec (req_spliter_thr request) 50); [lia|].
    destruct (req_ssml request) as [|c t]; [congruence|]. cbn [truthy negb orb PyStr.eqb].
    destruct (PyStr.eqb (lower (req_format request)) (lit "mp3")) eqn:Hm;
      [apply PyStrFacts.eqb_eq in Hm; congruence|].
    destruct (PyStr.eqb (lower (req_format request)) (lit "wav")) eqn:Hw;
      [apply PyStrFacts.eqb_eq in Hw; congruence|].
    reflexivity.
Qed.

(** X21: A valid request (batch size at least 1, threshold at least 50, so 50
    itself passes, SSML not empty, format mp3 or wav in lower case) is
    handed to the handler with the format as sent; the handler's buffer
    is returned with media type audio/mpeg for mp3 and audio/wav for wav,
    an [HTTPException] of the handler is passed on unchanged, any other
    [Exception] becomes status 500 with its text as detail, and an
    exception that is not an [Exception] ([KeyboardInterrupt],
    [SystemExit], [asyncio.CancelledError]) gets out unchanged. *)
Theorem valid_request_is_handled (request : @SSMLRequest Enhancer Adjuster) :
  1 <= req_batch_size request ->
  50 <= req_spliter_thr request ->
  req_ssml request <> [] ->
  lower (req_format request) = lit "mp3"
  \/ lower (req_format request) = lit "wav" ->
  synthesize_ssml_api lower enqueue_to_buffer dseed dchunk request
  = match enqueue_to_buffer (req_ssml request)
            {| batch_size := req_batch_size request;
               spliter_threshold := req_spliter_thr request;
               eos := req_eos request; seed := dseed;
               stream_chunk_size := dchunk |}
            (req_adjuster request) (req_enhancer request)
            (req_format request) with
    | Return buffer =>
        Return (buffer,
                if PyStr.eqb (lower (req_format request)) (lit "mp3")
                then lit "audio/mpeg" else lit "audio/wav")
    | Throw (HTTPException status detail) =>
        Throw (HTTPException status detail)
    | Throw (OtherException str) => Throw (HTTPException 500 str)
    | Throw (BaseOnly name) => Throw (BaseOnly name)
    end.
Proof.
  intros H1 H2 H3 H4.
  unfold synthesize_ssml_api, synthesize_ssml_body.
  destruct (Z.ltb_spec (req_batch_size request) 1); [lia|].
  destruct (Z.ltb_spec (req_spliter_thr request) 50); [lia|].
  destruct (req_ssml request) as [|c t] eqn:Hs; [congruence|].
  cbn [truthy negb orb PyStr.eqb].
  destruct H4 as [-> | ->]; cbn -[lit];
    match goal with |- context [enqueue_to_buffer ?a ?b ?c ?d ?e] =>
      destruct (enqueue_to_buffer a b c d e) as [buffer|[st de|str|name]] end;
    reflexivity.
Qed.

End Endpoints.

End ApiFacts.

(** ** The import path *)

Module SysPathsFacts.

Import SysPaths.

Lemma contains_In sys_path pth :
  contains sys_path pth = true <-> In pth sys_path.
Proof.
  induction sys_path as [|p l IH]; simpl; [easy|].
  rewrite orb_true_iff, PyStrFacts.eqb_eq, IH. tauto.
Qed.

Lemma add_path_keeps sys_path pth q :
  In q sys_path -> In q (add_path sys_path pth).
Proof.
  unfold add_path. destruct (contains sys_path pth); simpl; auto.
Qed.

Lemma add_path_adds sys_path pth : In pth (add_path sys_path pth).
Proof.
  unfold add_path. destruct (contains sys_path pth) eqn:H; simpl.
  - now apply contains_In.
  - now left.
Qed.

Lemma add_path_present sys_path pth :
  In pth sys_path -> add_path sys_path pth = sys_path.
Proof.
  intros H. apply contains_In in H. unfold add_path. now rewrite H.
Qed.

Lemma add_path_NoDup sys_path pth :
  List.NoDup sys_path -> List.NoDup (add_path sys_path pth).
Proof.
  intros H. unfold add_path. destruct (contains sys_path pth) eqn:Hc; simpl;
    [exact H|].
  apply List.NoDup_cons; [|exact H]. intros Hin. apply contains_In in Hin.
  congruence.
Qed.

Lemma fold_add_keeps ps : forall sys_path q,
  In q sys_path -> In q (fold_left add_path ps sys_path).
Proof.
  induction ps as [|p ps IH]; intros sys_path q H; simpl; [exact H|].
  now apply IH, add_path_keeps.
Qed.

Lemma fold_add_adds ps : forall sys_path p,
  In p ps -> In p (fold_left add_path ps sys_path).
Proof.
  induction ps as [|p' ps IH]; intros sys_path p H; simpl; [destruct H|].
  destruct H as [-> | H]; [|now apply IH].
  apply fold_add_keeps, add_path_adds.
Qed.

Lemma fold_add_present ps : forall sys_path,
  (forall p, In p ps -> In p sys_path) ->
  fold_left add_path ps sys_path = sys_path.
Proof.
  induction ps as [|p ps IH]; intros sys_path H; simpl; [reflexivity|].
  rewrite add_path_present by (apply H; now left).
  apply IH. intros q Hq. apply H. now right.
Qed.

Lemma fold_add_front ps : forall sys_path,
  exists added,
    fold_left add_path ps sys_path = added ++ sys_path
    /\ Forall (fun p => In p ps /\ ~ In p sys_path) added.
Proof.
  induction ps as [|p ps IH]; intros sys_path; simpl.
  - exists []. split; [reflexivity | constructor].
  - destruct (IH (add_path sys_path p)) as (added & -> & Hall).
    unfold add_path in *. destruct (contains sys_path p) eqn:Hc; simpl in *.
    + exists added. split; [reflexivity|].
      eapply Forall_impl; [exact Hall|]. intros q [H1 H2]. tauto.
    + exists (added ++ [p]). split; [now rewrite <- app_assoc|].
      apply Forall_app. split.
      * eapply Forall_impl; [exact Hall|]. intros q [H1 H2].
        simpl in H2. tauto.
      * apply List.Forall_cons; [|apply List.Forall_nil].
        split; [tauto|].
        intros Hin. apply contains_In in Hin. congruence.
Qed.

Lemma fold_add_NoDup ps : forall sys_path,
  List.NoDup sys_path -> List.NoDup (fold_left add_path ps sys_path).
Proof.
  induction ps as [|p ps IH]; intros sys_path H; simpl; [exact H|].
  now apply IH, add_path_NoDup.
Qed.

Section Paths.

Variable REPO_DIR : pystr -> pystr.

(** X22: After [setup_repos_paths] both repository directories are on the
    path, and the entries that were on it are still there, in their order,
    behind the new ones; only repository directories that were missing are
    new. *)
Theorem setup_adds_in_front (sys_path : list pystr) :
  In (REPO_DIR (lit "cosyvoice")) (setup_repos_paths REPO_DIR sys_path)
  /\ In (REPO_DIR (lit "openvoice")) (setup_repos_paths REPO_DIR sys_path)
  /\ exists added,
       setup_repos_paths REPO_DIR sys_path = added ++ sys_path
       /\ Forall (fun p => In p (paths REPO_DIR) /\ ~ In p sys_path) added.
Proof.
  unfold setup_repos_paths. split_all.
  - apply fold_add_adds. simpl. tauto.
  - apply fold_add_adds. simpl. tauto.
  - apply fold_add_front.
Qed.

(** X23: Running [setup_repos_paths] again changes nothing. *)
Theorem setup_idempotent (sys_path : list pystr) :
  setup_repos_paths REPO_DIR (setup_repos_paths REPO_DIR sys_path)
  = setup_repos_paths REPO_DIR sys_path.
Proof.
  unfold setup_repos_paths at 1. apply fold_add_present.
  intros p Hp. now apply fold_add_adds.
Qed.

(** X24: [setup_repos_paths] puts no entry on the path twice. *)
Theorem setup_keeps_path_duplicate_free (sys_path : list pystr) :
  List.NoDup sys_path -> List.NoDup (setup_repos_paths REPO_DIR sys_path).
Proof. apply fold_add_NoDup. Qed.

(** X25: When neither directory is on the path and the two differ, the one
    listed last comes first. *)
Theorem setup_order (sys_path : list pystr) :
  ~ In (REPO_DIR (lit "cosyvoice")) sys_path ->
  ~ In (REPO_DIR (lit "openvoice")) sys_path ->
  REPO_DIR (lit "cosyvoice") <> REPO_DIR (lit "openvoice") ->
  setup_repos_paths REPO_DIR sys_path
  = REPO_DIR (lit "openvoice") :: REPO_DIR (lit "cosyvoice") :: sys_path.
Proof.
  intros H1 H2 Hne. unfold setup_repos_paths, paths. cbn [fold_left].
  assert (Hc1 : contains sys_path (REPO_DIR (lit "cosyvoice")) = false).
  { destruct (contains sys_path _) eqn:H; [|reflexivity].
    apply contains_In in H. contradiction. }
  unfold add_path at 2. rewrite Hc1. cbn [negb].
  assert (Hc2 : contains (REPO_DIR (lit "cosyvoice") :: sys_path)
                  (REPO_DIR (lit "openvoice")) = false).
  { destruct (contains (_ :: sys_path) _) eqn:H; [|reflexivity].
    apply contains_In in H. destruct H as [H|H]; contradiction. }
  unfold add_path. now rewrite Hc2.
Qed.

End Paths.

End SysPathsFacts.

(** ** Runs of the concrete instance *)

Import Demo.

Lemma cache_hit_witness :
  get_cache two_chunks (cache warm) [hello] context = Some 0%nat
  /\ generate_batch_base two_chunks [hello] context false warm
     = (warm, Ok (RetList 0%nat))
  /\ generate_batch_base two_chunks [hello] context true warm
     = (warm, Ok (RetGen (GCached 0%nat))).
Proof.
  split; [reflexivity|].
  pose proof (cache_hit_returns_cached two_chunks warm [hello] context 0%nat
                eq_refl) as (H1 & H2 & _).
  split; [exact H1 | exact H2].
Defined.

Lemma shared_parameters_witness :
  get_cache two_chunks (cache fresh) [hello; hello_as []] context = None
  /\ exists kw kws,
       backend_receives two_chunks fresh hello [hello_as []] context 42 kw kws
       /\ kw_get "temperature" kw = Some (AFloat (3 # 10))
       /\ kw_get "text" kw
          = Some (ATexts [lit "Hello world"; lit "Hello world"]).
Proof.
  split; [reflexivity|].
  destruct (shared_parameters_from_first_segment two_chunks fresh hello
              [hello_as []] context eq_refl)
    as (kw & kws & H & _ & _ & Ht & _ & _ & Hte & _).
  exists kw, kws. split; [exact H|]. split; [exact Hte | exact Ht].
Defined.

(** The claim C2 as stated fails: the first segment's repetition penalty
    (1.05) and token limit (2048) reach the backend under no keyword. *)
Lemma repetition_penalty_not_passed :
  get_cache two_chunks (cache fresh) [hello] context = None
  /\ ~ (exists infer kw k,
          In (CGenerateAudio infer (infer_seed hello) kw)
             (calls (fst (generate_batch_base two_chunks [hello] context
                            false fresh)))
          /\ (kw_get k kw = Some (AFloat (repetition_penalty hello))
              \/ kw_get k kw = Some (AInt (max_new_token hello)))).
Proof.
  split; [reflexivity|].
  intros (infer & kw & k & Hin & Hk).
  vm_compute in Hin.
  destruct Hin as [H|[H|[H|[]]]]; try discriminate H.
  injection H as <- <-.
  cbn [kw_get] in Hk.
  repeat match type of Hk with
         | context [if ?b then _ else _] => destruct b
         end;
    destruct Hk as [Hk|Hk]; discriminate Hk.
Qed.

Lemma reference_witness :
  get_cache two_chunks (cache fresh) [hello_as (lit "Hi")] context = None
  /\ spk (hello_as (lit "Hi")) = Some (speaker (lit "Hi"))
  /\ exists kw kws,
       backend_receives two_chunks fresh (hello_as (lit "Hi")) [] context 42
         kw kws
       /\ kw_get "txt_smp" kw = Some (AOptStr (Some (lit "Hi" ++ full_stop)))
       /\ kw_get "spk_smp" kw = Some (ASmp (Some [5; 6; 7])).
Proof.
  split; [reflexivity|]. split; [reflexivity|].
  destruct (reference_resampled_and_terminated two_chunks fresh
              (hello_as (lit "Hi")) [] context (speaker (lit "Hi"))
              {| ref_emotion := lit "happy"; wav := [5; 6; 7];
                 wav_sr := 44100; ref_text := lit "Hi" |}
              eq_refl eq_refl eq_refl)
    as (kw & kws & t & H & Hsmp & _ & Htxt & _ & _ & Happ & _).
  exists kw, kws. split; [exact H|]. split; [|exact Hsmp].
  rewrite Htxt. do 3 f_equal. apply Happ; [discriminate | reflexivity].
Defined.

(** The claim C3 as stated fails: a matching reference whose transcript is
    the empty string reaches the backend with the empty transcript, which
    does not end with the sentence-terminal mark. *)
Lemma empty_transcript_not_terminated :
  get_cache two_chunks (cache fresh) [hello_as []] context = None
  /\ (exists r, get_ref (speaker []) (emotion_is (emotion (hello_as [])))
                = Some r)
  /\ ~ (exists infer kw t,
          In (CGenerateAudio infer (infer_seed (hello_as [])) kw)
             (calls (fst (generate_batch_base two_chunks [hello_as []]
                            context false fresh)))
          /\ kw_get "txt_smp" kw = Some (AOptStr (Some t))
          /\ endswith t full_stop = true).
Proof.
  split; [reflexivity|]. split; [eexists; reflexivity|].
  intros (infer & kw & t & Hin & Hk & He).
  vm_compute in Hin.
  destruct Hin as [H|[H|[H|[H|[]]]]]; try discriminate H.
  injection H as <- <-.
  vm_compute in Hk. injection Hk as <-. discriminate He.
Qed.

Lemma prompt2_witness :
  get_cache two_chunks (cache fresh) [hello_as []] context = None
  /\ exists kw kws,
       backend_receives two_chunks fresh (hello_as []) [] context 42 kw kws
       /\ kw_get "prompt2" kw
          = Some (AStr (lit "[Ptts][Ptts][Ptts] " ++ lit "be cheerful"
                        ++ lit " [Stts][Ptts][Stts][Ptts][Stts]")).
Proof.
  split; [reflexivity|].
  destruct (prompt2_wrapped_when_not_blank two_chunks fresh (hello_as []) []
              context eq_refl)
    as (kw & kws & p & H & Hp & _ & Hw & _).
  exists kw, kws. split; [exact H|].
  rewrite Hp. do 2 f_equal. apply Hw. discriminate.
Defined.

Lemma precedence_witness :
  get_cache two_chunks (cache fresh) [hello_as []] context = None
  /\ get_spk_emb two_chunks (hello_as []) context = Some 7%nat
  /\ exists kw kws,
       backend_receives two_chunks fresh (hello_as []) [] context 42 kw kws
       /\ kw_get "spk_emb" kw = Some (AEmb None)
       /\ kw_get "spk_emb" kws = Some (AEmb None).
Proof.
  split; [reflexivity|]. split; [reflexivity|].
  destruct (reference_sample_precedes_embedding two_chunks fresh
              (hello_as []) [] context eq_refl)
    as (kw & kws & H & _ & Hs & Hyes & _).
  destruct (Hyes (speaker []) _ eq_refl eq_refl) as [_ He].
  exists kw, kws. split; [exact H|]. split; [exact He|].
  now rewrite Hs.
Defined.


Lemma streamed_cache_witness :
  get_cache second_fails (cache fresh) [hello; hello] context = None
  /\ exists w1 g w2 items,
       generate_batch_base second_fails [hello; hello] context true fresh
       = (w1, Ok (RetGen g))
       /\ drain second_fails 4 g w1 = (w2, Ok (Some items))
       /\ List.map snd items
          = [[(24000, [1]); (24000, [])]; [(24000, [2]); (24000, [])];
             [(24000, []); (24000, [])]]
       /\ cache w2 = [([lit "Hello world"; lit "Hello world"], Some 0%nat)]
       /\ deref w2 0 !! 0%nat = Some (24000, [1; 2]).
Proof.
  split; [reflexivity|].
  destruct (streamed_batches_are_cached second_fails fresh hello [hello]
              context _ _ 4 eq_refl eq_refl)
    as (w1 & g & w2 & items & Hrun & _ & Hdrain & Hitems & Hcache & _ & Hi).
  - repeat constructor.
  - simpl. lia.
  - exists w1, g, w2, items. split; [exact Hrun|]. split; [exact Hdrain|].
    split; [exact Hitems|]. split; [exact Hcache|].
    destruct (Hi 0%nat ltac:(simpl; lia)) as (v & Hv & Hl).
    rewrite Hitems in Hv. vm_compute in Hv. injection Hv as <-. exact Hl.
Defined.

(** The claim C6 as stated fails: when the backend's stream ends before
    its first partial batch, the exhausted generator has written [None] to
    the cache, not a list with an entry per segment. *)
Lemma cut_stream_caches_none :
  get_cache cut_short (cache fresh) [hello] context = None
  /\ exists w1 g w2,
       generate_batch_base cut_short [hello] context true fresh
       = (w1, Ok (RetGen g))
       /\ drain cut_short 2 g w1 = (w2, Ok (Some []))
       /\ cache w2 = set_cache cut_short (cache fresh) [hello] context None
       /\ ~ (exists a,
               cache w2
               = set_cache cut_short (cache fresh) [hello] context (Some a)).
Proof.
  split; [reflexivity|].
  eexists _, _, _. split; [cbv; reflexivity|]. split; [cbv; reflexivity|].
  split; [reflexivity|]. intros (a & Ha). discriminate Ha.
Qed.

(** C7 fails on the code: with a backend that produces the samples 1, 2
    at once and as the chunks 1 and 2, the non-streaming call returns 1, 2
    for segment 0; the streaming generator, once exhausted, has overwritten
    the first list it yielded with its running concatenation, so the lists
    it yielded read 1, 2 and 2, and concatenating them for segment 0 gives
    1, 2, 2.  Copies taken at each yield concatenate to 1, 2. *)
Theorem first_yielded_list_is_overwritten :
  (exists w' a,
      generate_batch_base two_chunks [hello] context false fresh
      = (w', Ok (RetList a))
      /\ deref w' a = [(24000, [1; 2])])
  /\ exists w1 g w2 items,
       generate_batch_base two_chunks [hello] context true fresh
       = (w1, Ok (RetGen g))
       /\ drain two_chunks 3 g w1 = (w2, Ok (Some items))
       /\ List.map snd items = [[(24000, [1])]; [(24000, [2])]]
       /\ read_back w2 items = [[(24000, [1; 2])]; [(24000, [2])]]
       /\ reconstruct 0 (List.map snd items) = Ok [1; 2]
       /\ reconstruct 0 (read_back w2 items) = Ok [1; 2; 2].
Proof.
  split.
  - eexists _, _. split; [cbv; reflexivity | reflexivity].
  - eexists _, _, _, _. split; [cbv; reflexivity|].
    split; [cbv; reflexivity|]. repeat split; reflexivity.
Qed.

(** C8 fails on the code: on a model object that never created a backend,
    [interrupt] raises [AttributeError]. *)
Theorem interrupt_on_fresh_model :
  current_infer fresh = None
  /\ interrupt fresh = (fresh, Raise AttributeError).
Proof. split; [reflexivity|]. now apply interrupt_without_backend. Qed.

Lemma seed_clamped_witness :
  (exists cfg,
      Webui.tts_generate Samples.styles 1000 96
        (Samples.seed_args (Webui.PyInt (2 ^ 40))) = Ok cfg
      /\ seed cfg = 2 ^ 32 - 1)
  /\ (exists cfg,
        Webui.tts_generate Samples.styles 1000 96
          (Samples.seed_args (Webui.PyInt 42)) = Ok cfg
        /\ seed cfg = 42).
Proof.
  split.
  - destruct (WebuiFacts.tts_generate_seed_clamped Samples.styles 1000 96
                (Samples.seed_args (Webui.PyInt (2 ^ 40)))) as (_ & Hb).
    edestruct Hb as (cfg & Hcfg & _ & _ & Hhi & _);
      [reflexivity | reflexivity | reflexivity | simpl; lia
      | left; reflexivity |].
    exists cfg. split; [exact Hcfg|]. apply Hhi. lia.
  - destruct (WebuiFacts.tts_generate_seed_clamped Samples.styles 1000 96
                (Samples.seed_args (Webui.PyInt 42))) as (_ & Hb).
    edestruct Hb as (cfg & Hcfg & _ & _ & _ & Hin);
      [reflexivity | reflexivity | reflexivity | simpl; lia
      | left; reflexivity |].
    exists cfg. split; [exact Hcfg|]. apply Hin. lia.
Defined.

(** Seeds below -1, fractional seeds, infinite seeds, and the seeds the
    clamping lines refuse. *)
Example clamp_seed_examples :
  Webui.clamp_seed (Webui.PyInt (-5)) = Ok (-1)
  /\ Webui.clamp_seed (Webui.PyFloat (Webui.Fin (- 1 # 2))) = Ok 0
  /\ Webui.clamp_seed (Webui.PyFloat (Webui.Fin (85 # 2))) = Ok 42
  /\ Webui.clamp_seed (Webui.PyFloat Webui.PInf) = Ok (2 ^ 32 - 1)
  /\ Webui.clamp_seed (Webui.PyFloat Webui.NInf) = Ok (-1)
  /\ Webui.clamp_seed (Webui.PyFloat Webui.NaN) = Raise ValueError
  /\ Webui.clamp_seed (Webui.PyInt (2 ^ 64)) = Raise UFuncTypeError
  /\ Webui.clamp_seed (Webui.PyInt (- 2 ^ 63 - 1)) = Raise UFuncTypeError.
Proof. repeat split; reflexivity. Qed.

(** ** Runs for the further properties *)

Import Samples.

Lemma unfinished_stream_witness :
  drain two_chunks 1 started_gen started_world
  = (fst (drain two_chunks 1 started_gen started_world), Ok None)
  /\ cache (fst (drain two_chunks 1 started_gen started_world))
     = cache started_world.
Proof.
  split; [reflexivity|].
  apply (unfinished_stream_not_cached two_chunks 1 started_gen started_world
           _ (Ok None)); [reflexivity | discriminate].
Defined.

Lemma interrupt_after_miss_witness :
  get_cache two_chunks (cache fresh) [hello] context = None
  /\ (exists w',
         interrupt (fst (generate_batch_base_with two_chunks Started [hello]
                           context false fresh))
         = (w', Ok tt))
  /\ (exists w1,
         generate_batch_base_with two_chunks
           (LoadRaises (PyError "RuntimeError")) [hello] context false fresh
         = (w1, Raise (PyError "RuntimeError"))
         /\ interrupt w1 = (w1, Raise AttributeError)).
Proof.
  split; [reflexivity|]. split.
  - destruct (interrupt_after_miss two_chunks fresh [hello] context false
                Started eq_refl) as (_ & w' & H & _).
    now exists w'.
  - destruct (interrupt_after_miss two_chunks fresh [hello] context false
                (LoadRaises (PyError "RuntimeError")) eq_refl)
      as (w1 & H & _ & _ & Hn & _).
    exists w1. split; [exact H | now apply Hn].
Defined.

Lemma current_infer_witness :
  is_Some (current_infer warm)
  /\ is_Some (current_infer (fst (interrupt warm))).
Proof.
  assert (H : is_Some (current_infer warm)) by (now eexists).
  split; [exact H|].
  exact (proj1 (proj2 (proj2 (current_infer_stays_set two_chunks warm H)))).
Defined.

Lemma channelless_witness :
  get_cache no_channel (cache fresh) [hello] context = None
  /\ In (Some [])
        (generate_audio no_channel (infer_seed hello)
           (miss_kwargs no_channel hello context (List.map text [hello])))
  /\ exists w',
       generate_batch_base no_channel [hello] context false fresh
       = (w', Raise IndexError)
       /\ cache w' = cache fresh.
Proof.
  split; [reflexivity|]. split; [now left|].
  destruct (channelless_result_raises no_channel fresh hello [] context
              eq_refl (or_introl eq_refl)) as (w' & H & Hc & _).
  exists w'. now split.
Defined.

Lemma second_call_witness :
  get_cache two_chunks (cache fresh) [hello] context = None
  /\ exists w1 a,
       generate_batch_base two_chunks [hello] context false fresh
       = (w1, Ok (RetList a))
       /\ generate_batch_base two_chunks [hello] context false w1
          = (w1, Ok (RetList a)).
Proof.
  split; [reflexivity|].
  destruct (second_call_hits two_chunks fresh hello [] context)
    as (w1 & a & H1 & H2 & _).
  - intros c value. reflexivity.
  - reflexivity.
  - apply List.Forall_cons; [right; now eexists _, _ | apply List.Forall_nil].
  - exists w1, a. now split.
Defined.

Lemma yielded_lists_witness :
  get_cache two_chunks (cache fresh) [hello] context = None
  /\ exists w1 g w2 items,
       generate_batch_base two_chunks [hello] context true fresh
       = (w1, Ok (RetGen g))
       /\ drain two_chunks 3 g w1 = (w2, Ok (Some items))
       /\ List.map snd items = [[(24000, [1])]; [(24000, [2])]]
       /\ read_back w2 items = [[(24000, [1; 2])]; [(24000, [2])]].
Proof.
  split; [reflexivity|].
  destruct (yielded_lists_after_exhaustion two_chunks fresh hello [] context
              [Some [[1]]] [[Some [[2]]]] 3 eq_refl eq_refl)
    as (w1 & g & w2 & items & H1 & H2 & _ & H3 & H4 & _).
  - apply List.Forall_cons; [reflexivity | apply List.Forall_nil].
  - simpl. lia.
  - exists w1, g, w2, items. split; [exact H1|]. split; [exact H2|].
    split; [exact H3 | exact H4].
Defined.

Lemma served_from_cache_witness :
  get_cache two_chunks (cache fresh) [hello] context = None
  /\ exists w1 g w2 items a,
       generate_batch_base two_chunks [hello] context true fresh
       = (w1, Ok (RetGen g))
       /\ drain two_chunks 3 g w1 = (w2, Ok (Some items))
       /\ generate_batch_base two_chunks [hello] context false w2
          = (w2, Ok (RetList a))
       /\ deref w2 a = [(24000, [1; 2])].
Proof.
  split; [reflexivity|].
  destruct (streamed_result_served_from_cache two_chunks fresh hello []
              context [Some [[1]]] [[Some [[2]]]] 3)
    as (w1 & g & w2 & items & a & H1 & H2 & _ & H3 & H4).
  - intros c value. reflexivity.
  - reflexivity.
  - reflexivity.
  - apply List.Forall_cons; [reflexivity | apply List.Forall_nil].
  - simpl. lia.
  - exists w1, g, w2, items, a. split; [exact H1|]. split; [exact H2|].
    split; [exact H3 | exact H4].
Defined.

Lemma longer_batch_witness :
  get_cache growing (cache fresh) [hello] context = None
  /\ exists w1 g,
       generate_batch_base growing [hello] context true fresh
       = (w1, Ok (RetGen g))
       /\ (exists wA a0 g1 wB a1 g2 wC,
             gen_next growing g w1 = (wA, Ok (Some a0, g1))
             /\ deref wA a0 = [(24000, [1])]
             /\ gen_next growing g1 wA = (wB, Ok (Some a1, g2))
             /\ deref wB a1 = [(24000, [2]); (24000, [3])]
             /\ gen_next growing g2 wB = (wC, Raise IndexError))
       /\ exists w2,
            drain growing 3 g w1 = (w2, Raise IndexError)
            /\ cache w2 = cache fresh.
Proof.
  split; [reflexivity|].
  destruct (longer_batch_raises growing fresh hello [] context
              [Some [[1]]] [Some [[2]]; Some [[3]]] [] 0 eq_refl eq_refl)
    as (w1 & g & H1 & (wA & a0 & g1 & wB & a1 & g2 & wC & Ha & Hda & Hb
                       & _ & Hdb & _ & Hc & _) & Hd).
  - simpl. lia.
  - exists w1, g. split; [exact H1|]. split; [|exact Hd].
    exists wA, a0, g1, wB, a1, g2, wC.
    split; [exact Ha|]. split; [exact Hda|]. split; [exact Hb|].
    split; [exact Hdb | exact Hc].
Defined.

Lemma limit_bound_witness :
  0 <= 8
  /\ WebuiLists.text_len (WebuiLists.segments_length_limit document 8) <= 8
  /\ WebuiLists.segments_length_limit document 8
     = [WebuiLists.SSMLSegment (lit "Hello") tt; WebuiLists.SSMLBreak 500].
Proof.
  split; [lia|]. split; [|reflexivity].
  apply (WebuiListsFacts.limit_bounds_text document 8). lia.
Defined.

Lemma limit_fits_witness :
  WebuiLists.text_len document <= 12
  /\ WebuiLists.segments_length_limit document 12 = document.
Proof.
  split; [simpl; lia|].
  apply (WebuiListsFacts.limit_keeps_fitting_document document 12).
  simpl. lia.
Defined.

Lemma zero_seed_witness :
  (exists cfg, Webui.tts_generate styles 1000 96 zero_seed_args = Ok cfg
               /\ seed cfg = 7 /\ batch_size cfg = 4).
Proof.
  eexists. split; [reflexivity|]. split; [|reflexivity].
  match goal with |- seed ?c = _ =>
    destruct (WebuiOutcomes.seed_zero_defers_to_style styles 1000 96
                zero_seed_args 7 c eq_refl) as (params & Hp & _ & Hz & _)
  end.
  apply Hz; [reflexivity|]. injection Hp as <-. reflexivity.
Defined.

Lemma valid_request_witness :
  1 <= Api.req_batch_size request
  /\ 50 <= Api.req_spliter_thr request
  /\ Api.synthesize_ssml_api (fun s => s) echo 42 96 request
     = Api.Return (lit "<speak>Hi</speak>", lit "audio/mpeg").
Proof.
  split; [simpl; lia|]. split; [simpl; lia|].
  rewrite (ApiFacts.valid_request_is_handled (fun s => s) echo 42 96 request);
    [reflexivity | simpl; lia | simpl; lia | discriminate | now left].
Defined.

Lemma duplicate_free_witness :
  List.NoDup [lit "/usr/lib"]
  /\ List.NoDup (SysPaths.setup_repos_paths repo_dir [lit "/usr/lib"]).
Proof.
  assert (H : List.NoDup [lit "/usr/lib"])
    by (apply List.NoDup_cons; [intros [] | apply List.NoDup_nil]).
  split; [exact H|].
  now apply (SysPathsFacts.setup_keeps_path_duplicate_free repo_dir).
Defined.

Lemma setup_order_witness :
  SysPaths.setup_repos_paths repo_dir [lit "/usr/lib"]
  = [lit "/repo/openvoice"; lit "/repo/cosyvoice"; lit "/usr/lib"].
Proof.
  apply (SysPathsFacts.setup_order repo_dir [lit "/usr/lib"]).
  - intros [H|[]]. discriminate H.
  - intros [H|[]]. discriminate H.
  - discriminate.
Defined.
